(** * Newtonian-Gravity: a shallow embedding of [newtoniangravity.py]

    The physics core of the simulator (the [gravpoint] class, the vector
    helpers, [merge_detect], [gravity], [updateall]) and the scenario
    selection at module level are embedded as Rocq functions, and the
    properties of the design document are stated over them.

    Modelling conventions.
    - Python floats and the entries of numpy float arrays are real numbers
      ([R]); rounding, infinities and NaN are not modelled.  The arrays are
      float arrays, as the docstrings of the source say.
    - A numpy array of length 3 is a [vec]; the numpy operators the source
      uses are [vadd], [vsub], [vscale], [vdiv] and the method [.all()] is
      [all_].
    - Exceptions are values of [exn]; a computation that can raise returns a
      [result].  Code that mutates the list [gpoints] runs in the monad [M],
      whose state (the list) survives an exception, as a Python list does.
    - The entries of [gpoints] are distinct objects in every list the program
      builds (each comes from its own constructor call and a merge stores a
      fresh object), and no array is mutated in place while it is shared, so
      bodies are modelled as values. *)

From Stdlib Require Import String Reals Lra Lia ZArith Bool Arith List.
Import ListNotations.

Open Scope R_scope.

(** ** Exceptions and results *)

Inductive exn : Type :=
| IndexError
| ValueError
| TypeError
| NameError.

Inductive result (A : Type) : Type :=
| Normal (a : A)
| Raise (e : exn).

Arguments Normal {A} a.
Arguments Raise {A} e.

Definition rbind {A B : Type} (r : result A) (k : A -> result B) : result B :=
  match r with
  | Normal a => k a
  | Raise e => Raise e
  end.

Declare Scope result_scope.
Delimit Scope result_scope with result.
Notation "'let!' x ':=' r 'in' k" := (rbind r (fun x => k))
  (at level 10, x name, r at level 100, k at level 200) : result_scope.

(** ** Numpy arrays of length 3 *)

Record vec : Type := Vec { vx : R; vy : R; vz : R }.

Definition vget (v : vec) (i : nat) : R :=
  match i with
  | O => vx v
  | S O => vy v
  | _ => vz v
  end.

Definition vset (v : vec) (i : nat) (x : R) : vec :=
  match i with
  | O => Vec x (vy v) (vz v)
  | S O => Vec (vx v) x (vz v)
  | _ => Vec (vx v) (vy v) x
  end.

Definition vadd (a b : vec) : vec := Vec (vx a + vx b) (vy a + vy b) (vz a + vz b).
Definition vsub (a b : vec) : vec := Vec (vx a - vx b) (vy a - vy b) (vz a - vz b).
Definition vscale (a : vec) (k : R) : vec := Vec (vx a * k) (vy a * k) (vz a * k).
Definition vdiv (a : vec) (k : R) : vec := Vec (vx a / k) (vy a / k) (vz a / k).

Definition vzero : vec := Vec 0 0 0.

(** Truth value of a number: nonzero. *)
Definition truthy (x : R) : bool := if Req_dec_T x 0 then false else true.

(** [point.all()]: every entry is nonzero. *)
Definition all_ (v : vec) : bool := truthy (vx v) && truthy (vy v) && truthy (vz v).

(** Python compares a boolean with an integer through its value 0 or 1. *)
Definition bool_eq_int (b : bool) (n : Z) : bool :=
  Z.eqb (if b then 1 else 0) n.

Definition Req_bool (x y : R) : bool := if Req_dec_T x y then true else false.
Definition Rlt_bool (x y : R) : bool := if Rlt_dec x y then true else false.
Definition Rle_bool (x y : R) : bool := if Rle_dec x y then true else false.

(** ** Built-in conversions *)

(** [int(x)] on a float: truncation toward zero. *)
Definition py_int (x : R) : Z :=
  if Rle_dec 0 x then Int_part x else (- Int_part (- x))%Z.

(** [int(mass ** (1/3))], where [1/3] is the true division of Python 3.  For
    a negative base and a fractional exponent Python 3 returns a complex
    number, which [int] refuses with a TypeError; [0 ** (1/3)] is [0.0].
    The power is read as the exact real power.  The double power of the
    program can fall just below an integer root: [64 ** (1/3)] is
    3.9999999999999996, and [int] then gives 3 where this function gives 4
    (likewise 4 at 125 and 9 at 1000): at such a mass the radius of the
    program is one less than the radius of this model. *)
Definition int_cube_root (mass : R) : result Z :=
  if Rlt_dec 0 mass then Normal (py_int (Rpower mass (1 / 3)))
  else if Req_dec_T mass 0 then Normal 0%Z
  else Raise TypeError.

(** [math.log]: a ValueError outside the domain. *)
Definition log (x : R) : result R :=
  if Rlt_dec 0 x then Normal (ln x) else Raise ValueError.

(** ** Global variables *)

Definition GRAVEC : R := (6.67 * (/ 10 ^ 11)) * 1000.

(** ** The class [gravpoint] *)

Record rgb : Type := Rgb { red : R; green : R; blue : R }.

Record gravpoint : Type := Gravpoint {
  mass : R;
  pos : vec;
  vel : vec;
  radius : Z;
  imov : bool;
  color : rgb
}.

Definition white : rgb := Rgb 255 255 255.

Definition __init__ (pos : vec) (mass : R) (vel : vec) (imov : bool) (color : rgb)
  : result gravpoint :=
  (let! radius := int_cube_root mass in
   Normal (Gravpoint mass pos vel radius imov color))%result.

Definition set_pos (self : gravpoint) (p : vec) : gravpoint :=
  Gravpoint (mass self) p (vel self) (radius self) (imov self) (color self).

Definition set_vel (self : gravpoint) (v : vec) : gravpoint :=
  Gravpoint (mass self) (pos self) v (radius self) (imov self) (color self).

Definition move (self : gravpoint) : gravpoint :=
  if negb (imov self) then set_pos self (vadd (pos self) (vel self)) else self.

Definition update (self : gravpoint) (force : vec) : gravpoint :=
  set_vel self (vadd (vel self) (vdiv force (mass self))).

(** [self + other].  Both operands are [gravpoint]s here, so the
    [isinstance] test of the source holds. *)
Definition __add__ (self other : gravpoint) : result gravpoint :=
  let newmass := mass self + mass other in
  let selfin := vscale (vel self) (mass self) in
  let otherin := vscale (vel other) (mass other) in
  let combmass := mass self + mass other in
  let newvel := vdiv (vadd selfin otherin) combmass in
  let newimov := imov self || imov other in
  let newpos := vadd (pos self) (vdiv (pos other) 2) in
  let newpos :=
    if newimov then
      if imov self then pos self else pos other
    else newpos in
  let newcol := Rgb ((red (color self) + red (color other)) / 2)
                    ((green (color self) + green (color other)) / 2)
                    ((blue (color self) + blue (color other)) / 2) in
  __init__ newpos newmass newvel newimov newcol.

(** [self == other]. *)
Definition __eq__ (self other : gravpoint) : bool :=
  let req1 := Bool.eqb (all_ (pos self)) (all_ (pos other)) in
  let req2 := Bool.eqb (all_ (vel self)) (all_ (vel other)) in
  let req3 := Req_bool (mass self) (mass other) in
  if req1 && req2 && req3 then true else false.

Definition __ne__ (self other : gravpoint) : bool := negb (__eq__ self other).

(** ** Helper functions *)

Definition distance (point1 point2 : vec) : R :=
  let sum :=
    fold_left (fun sum i => sum + (vget point1 i - vget point2 i) ^ 2)
              (seq 0 3) 0 in
  sqrt sum.

(** [normalize] mutates its argument; the function returns the array as the
    call leaves it. *)
Definition normalize (point : vec) : vec :=
  if bool_eq_int (all_ point) 0 then point
  else
    let zero := vzero in
    let dist := distance point zero in
    fold_left (fun point i => vset point i (vget point i / dist)) (seq 0 3) point.

(** ** The list [gpoints] as mutable state *)

(** A command reads and mutates the list and either returns or raises; the
    list is kept as the exception left it. *)
Definition M (A : Type) : Type := list gravpoint -> result A * list gravpoint.

Definition ret {A : Type} (a : A) : M A := fun s => (Normal a, s).

Definition bind {A B : Type} (m : M A) (k : A -> M B) : M B :=
  fun s =>
    match m s with
    | (Normal a, s') => k a s'
    | (Raise e, s') => (Raise e, s')
    end.

Definition lift {A : Type} (r : result A) : M A := fun s => (r, s).

Declare Scope monad_scope.
Delimit Scope monad_scope with monad.
Notation "x <- m ;; k" := (bind m (fun x => k))
  (at level 61, m at next level, right associativity) : monad_scope.
Notation "m ;; k" := (bind m (fun _ => k))
  (at level 61, right associativity) : monad_scope.

(** [len(gpoints)]. *)
Definition len : M nat := fun s => (Normal (length s), s).

(** [gpoints[i]] for an index that is not negative. *)
Definition getitem (i : nat) : M gravpoint :=
  fun s =>
    match nth_error s i with
    | Some g => (Normal g, s)
    | None => (Raise IndexError, s)
    end.

Fixpoint list_assign (s : list gravpoint) (i : nat) (g : gravpoint) : list gravpoint :=
  match s, i with
  | [], _ => []
  | _ :: s', O => g :: s'
  | x :: s', S i' => x :: list_assign s' i' g
  end.

(** [gpoints[i] = g]. *)
Definition setitem (i : nat) (g : gravpoint) : M unit :=
  fun s =>
    if (i <? length s)%nat then (Normal tt, list_assign s i g)
    else (Raise IndexError, s).

(** [list.remove]: the first entry that compares equal to [x] is dropped.
    The comparison is [entry == x], that is [__eq__]; an entry that is [x]
    itself compares equal as well, which [__eq__] grants on values. *)
Fixpoint remove_first (x : gravpoint) (s : list gravpoint) : option (list gravpoint) :=
  match s with
  | [] => None
  | y :: s' =>
      if __eq__ y x then Some s'
      else option_map (cons y) (remove_first x s')
  end.

Definition remove (x : gravpoint) : M unit :=
  fun s =>
    match remove_first x s with
    | Some s' => (Normal tt, s')
    | None => (Raise ValueError, s)
    end.

(** [for i in range(...)]: the range is fixed when the loop starts. *)
Fixpoint for_range (range : list nat) (body : nat -> M unit) : M unit :=
  match range with
  | [] => ret tt
  | i :: range' => bind (body i) (fun _ => for_range range' body)
  end.

(** [range(a, b)]. *)
Definition range (a b : nat) : list nat := seq a (b - a).

(** [try: body except IndexError: continue], as the last statement of a loop
    body. *)
Definition try_except_IndexError (body : M unit) : M unit :=
  fun s =>
    match body s with
    | (Raise IndexError, s') => (Normal tt, s')
    | r => r
    end.

(** ** merge_detect *)

(** The statements under [try] for one pair of indices. *)
Definition merge_pair (i j : nat) : M unit :=
  (gi <- getitem i ;; gj <- getitem j ;;
   let sumradi := (radius gi + radius gj - 1)%Z in
   gi <- getitem i ;; gj <- getitem j ;;
   let rad := (radius gi + radius gj)%Z in
   gi <- getitem i ;; gj <- getitem j ;;
   let dist := distance (pos gi) (pos gj) in
   if Rlt_bool dist (IZR rad) then
     gi <- getitem i ;; gj <- getitem j ;;
     new <- lift (__add__ gi gj) ;;
     if (j <? i)%nat then
       gi <- getitem i ;;
       remove gi ;;
       setitem j new
     else
       gj <- getitem j ;;
       remove gj ;;
       setitem i new
   else ret tt)%monad.

(** The inner loop, for one value of [i]. *)
Definition merge_row (i : nat) : M unit :=
  (m <- len ;;
   for_range (range (i + 1) m) (fun j =>
     try_except_IndexError (merge_pair i j)))%monad.

Definition merge_detect : M unit :=
  (n <- len ;;
   for_range (range 0 n) merge_row)%monad.

(** ** gravity *)

(** The scalar [force] of the pair (mainpoint, otherpoint), lines 239-248. *)
Definition pair_force (mainpoint otherpoint : gravpoint) : result R :=
  let force := GRAVEC * (mass mainpoint * 1000 * mass otherpoint * 1000) in
  let dist := distance (pos mainpoint) (pos otherpoint) in
  if Req_bool dist 0 then Normal 0
  else
    let force := force / dist ^ 2 in
    if Rle_bool dist 5 then log force
    else Normal force.

(** The vector [par_force] appended for the pair. *)
Definition par_force (mainpoint otherpoint : gravpoint) : result vec :=
  (let! force := pair_force mainpoint otherpoint in
   let par_force := pos otherpoint in
   let par_force := vsub par_force (pos mainpoint) in
   let par_force := normalize par_force in
   let par_force := vscale par_force force in
   Normal par_force)%result.

(** The inner loop over [j]: [js] pairs every index with the body stored
    there. *)
Fixpoint par_forces (i : nat) (mainpoint : gravpoint)
         (js : list (nat * gravpoint)) : result (list vec) :=
  match js with
  | [] => Normal []
  | (j, otherpoint) :: js' =>
      if (i =? j)%nat then par_forces i mainpoint js'
      else
        (let! f := par_force mainpoint otherpoint in
         let! fs := par_forces i mainpoint js' in
         Normal (f :: fs))%result
  end.

Definition enumerate (gpoints : list gravpoint) : list (nat * gravpoint) :=
  combine (seq 0 (length gpoints)) gpoints.

(** The net force on body [i]: the partial forces added up from zero. *)
Definition net_force (gpoints : list gravpoint) (i : nat) (mainpoint : gravpoint)
  : result vec :=
  (let! fs := par_forces i mainpoint (enumerate gpoints) in
   Normal (fold_left vadd fs vzero))%result.

Fixpoint forces_from (gpoints : list gravpoint) (ps : list (nat * gravpoint))
  : result (list vec) :=
  match ps with
  | [] => Normal []
  | (i, mainpoint) :: ps' =>
      (let! f := net_force gpoints i mainpoint in
       let! fs := forces_from gpoints ps' in
       Normal (f :: fs))%result
  end.

Definition forces (gpoints : list gravpoint) : result (list vec) :=
  forces_from gpoints (enumerate gpoints).

(** [gpoints[i].update(forces[i])] for every [i]. *)
Fixpoint update_each (gpoints : list gravpoint) (fs : list vec) : list gravpoint :=
  match gpoints, fs with
  | g :: gpoints', f :: fs' => update g f :: update_each gpoints' fs'
  | _, _ => gpoints
  end.

Definition gravity : M unit :=
  fun s =>
    match forces s with
    | Normal fs => (Normal tt, update_each s fs)
    | Raise e => (Raise e, s)
    end.

(** ** updateall *)

Definition move_each : M unit := fun s => (Normal tt, map move s).

Definition updateall : M unit :=
  (merge_detect ;; gravity ;; move_each)%monad.

(** [n] frames of the main loop, as far as the simulation goes. *)
Fixpoint ticks (n : nat) : M unit :=
  match n with
  | O => ret tt
  | S n' => bind updateall (fun _ => ticks n')
  end.

(** ** Data: the scenarios chosen on the command line *)

(** [name in sys.argv]. *)
Definition in_argv (name : string) (argv : list string) : bool :=
  existsb (String.eqb name) argv.

(** [range(0, 360, 10)]. *)
Definition range_0_360_10 : list nat := map (fun k => (10 * k)%nat) (seq 0 36).

(** One turn of the loop of the circle scenario. *)
Definition circle_point (i : nat) : result gravpoint :=
  let cosang := cos (INR i) in
  let sinang := sin (INR i) in
  let sin2ang := sin (INR i + 60) in
  let cos2ang := cos (INR i + 60) in
  __init__ (Vec (cosang * 100) (sinang * 100) 0) 50
           (Vec (cos2ang * 10) (sin2ang * 10) 0) false
           (Rgb (Rabs sinang * 255) (Rabs cosang * 255) (Rabs sin2ang * 255)).

Fixpoint circle_points (gpoints : list gravpoint) (r : list nat)
  : result (list gravpoint) :=
  match r with
  | [] => Normal gpoints
  | i :: r' =>
      (let! g := circle_point i in
       circle_points (gpoints ++ [g]) r')%result
  end.

(** The module-level statements of lines 298-336: the value the name
    [gpoints] is bound to once the module is loaded. *)
Definition module_gpoints (argv : list string) : result (list gravpoint) :=
  (let gpoints := [] in
   let! centerp := __init__ (Vec 0 0 0) 1500 (Vec 0 0 0) true white in
   let! gpoints :=
     if in_argv "square" argv then
       let! gp1 := __init__ (Vec 0 (-50) 0) 100 (Vec 0 0 0) false white in
       let! gp2 := __init__ (Vec 0 50 0) 100 (Vec 0 0 0) false white in
       let! gp3 := __init__ (Vec 50 0 0) 100 (Vec 0 0 0) false white in
       let! gp4 := __init__ (Vec (-50) 0 0) 100 (Vec 0 0 0) false white in
       let! gp5 := __init__ (Vec 0 0 0) 200 (Vec 0 0 1) false white in
       Normal (gpoints ++ [gp1; gp2; gp3; gp4; gp5])
     else Normal gpoints in
   let! gpoints :=
     if in_argv "circle" argv then
       let gpoints := gpoints ++ [centerp] in
       circle_points gpoints range_0_360_10
     else Normal gpoints in
   let! gpoints :=
     if in_argv "line" argv then
       let! gp1 := __init__ (Vec 0 (-50) 0) 100 (Vec 0 0 0) false white in
       let! gp2 := __init__ (Vec 0 50 0) 100 (Vec 0 0 0) false white in
       let! gp3 := __init__ (Vec 0 100 0) 100 (Vec 0 0 0) false white in
       let! gp4 := __init__ (Vec 0 (-100) 0) 100 (Vec 0 0 0) false white in
       let! gp5 := __init__ (Vec 0 200 0) 100 (Vec 0 0 0) false white in
       let! gp6 := __init__ (Vec 0 (-200) 0) 100 (Vec 0 0 0) false white in
       Normal (gpoints ++ [gp1; gp2; gp3; gp4; gp5; gp6])
     else Normal gpoints in
   let! gpoints :=
     if in_argv "orbit" argv then
       let! gp1 := __init__ (Vec 0 0 0) 2000 (Vec (-1) 0 0) false white in
       let! gp2 := __init__ (Vec 0 100 0) 200 (Vec 10 0 0) false white in
       Normal (gpoints ++ [gp1; gp2])
     else Normal gpoints in
   Normal gpoints)%result.

(** ** main *)

(** What a run of the program comes to, up to the first frame: the process
    ends with a status after printing some lines, or the frame loop is
    entered with the bodies, or an exception is not caught. *)
Inductive outcome : Type :=
| Exit (status : Z) (stdout : list string)
| MainLoop (gpoints : list gravpoint) (stdout : list string)
| Uncaught (e : exn).

(** Reading the global name [gpoints]: a NameError when it is not bound. *)
Definition read_global (binding : option (list gravpoint)) : result (list gravpoint) :=
  match binding with
  | Some gpoints => Normal gpoints
  | None => Raise NameError
  end.

(** [main], given what the name [gpoints] is bound to.  [sys.exit()] without
    an argument ends the process with status 0. *)
Definition main (binding : option (list gravpoint)) : outcome :=
  match read_global binding with
  | Raise NameError =>
      Exit 0 ["No command given or command unrecognized"%string]
  | Raise e => Uncaught e
  | Normal gpoints => MainLoop gpoints []
  end.

(** The script: the module-level statements bind [gpoints] (line 298 does so
    whatever the arguments are), then [main] runs. *)
Definition program (argv : list string) : outcome :=
  match module_gpoints argv with
  | Normal gpoints => main (Some gpoints)
  | Raise e => Uncaught e
  end.

(** The scenario names the design document lists. *)
Definition scenario_names : list string :=
  ["square"; "circle"; "line"; "orbit"]%string.

Definition recognized (argv : list string) : bool :=
  existsb (fun name => in_argv name argv) scenario_names.

(** * Notions used in the statements *)

(** ** Quantities of the design document *)

Definition positive_mass (g : gravpoint) : Prop := 0 < mass g.

(** Momentum of a body. *)
Definition momentum (g : gravpoint) : vec := vscale (vel g) (mass g).

(** Sum of the masses of a collection. *)
Definition total_mass (gpoints : list gravpoint) : R :=
  fold_right Rplus 0 (map mass gpoints).

(** floor(mass^(1/3)), in the words of the design document. *)
Definition floor_cbrt (m : R) : Z := Int_part (Rpower m (1 / 3)).

Definition radius_ok (g : gravpoint) : Prop := radius g = floor_cbrt (mass g).

(** A body as the data model wants it: positive mass, radius derived from
    it. *)
Definition valid_body (g : gravpoint) : Prop := positive_mass g /\ radius_ok g.

(** The gravitational constant and the contribution magnitude in the words of
    the design document. *)
Definition G : R := 6.67e-11 * 1000.

Definition magnitude (mass_i mass_j : R) (pos_i pos_j : vec) : R :=
  let raw := G * (mass_i * 1000) * (mass_j * 1000) in
  let d := distance pos_i pos_j in
  if Req_dec_T d 0 then 0
  else if Rle_dec d 5 then ln (raw / d ^ 2)
  else raw / d ^ 2.

(** The vector a pair contributes: direction times magnitude. *)
Definition contribution (mainpoint otherpoint : gravpoint) : vec :=
  vscale (normalize (vsub (pos otherpoint) (pos mainpoint)))
         (magnitude (mass mainpoint) (mass otherpoint)
                    (pos mainpoint) (pos otherpoint)).

(** ** The integrator seen from one body *)

(** The two integrator steps of one tick as they reach one body: [update]
    with the force of this tick, then [move]. *)
Definition integrate (self : gravpoint) (force : vec) : gravpoint :=
  move (update self force).

(** One force for every tick. *)
Definition integrate_ticks (self : gravpoint) (forces : list vec) : gravpoint :=
  fold_left integrate forces self.

(** ** The invariant of the merge loops *)

(** Every body has the property [Pb] and the list is no longer than [n]. *)
Definition inv (Pb : gravpoint -> Prop) (n : nat) (s : list gravpoint) : Prop :=
  Forall Pb s /\ (length s <= n)%nat.

(** ** Sample bodies *)

(** Two movable bodies of masses 1 and 3 and an immovable one of mass 8,
    with the radii the constructor gives them. *)
Definition body_1 : gravpoint :=
  Gravpoint 1 (Vec 2 0 0) (Vec 1 0 0) 1 false white.
Definition body_2 : gravpoint :=
  Gravpoint 3 (Vec 4 0 0) (Vec 5 0 0) 1 false white.
Definition anchor : gravpoint :=
  Gravpoint 8 (Vec 0 0 0) (Vec 0 0 0) 2 true white.

(** Three bodies, written as the constructor builds them: a body of mass 100
    far away, a body of mass 50 at the origin and a body of mass 100 that
    overlaps it. *)
Definition far_body : gravpoint :=
  Gravpoint 100 (Vec 1000 0 0) (Vec 0 0 0) 4 false white.
Definition light_body : gravpoint :=
  Gravpoint 50 (Vec 0 0 0) (Vec 0 0 0) 3 false white.
Definition near_body : gravpoint :=
  Gravpoint 100 (Vec 1 0 0) (Vec 0 0 0) 4 false white.

Definition scene : list gravpoint := [far_body; light_body; near_body].

(** Three bodies of mass 8 in a row, each overlapping the next. *)
Definition row_x : gravpoint := Gravpoint 8 (Vec 0 0 0) (Vec 0 0 0) 2 false white.
Definition row_y : gravpoint := Gravpoint 8 (Vec 1 0 0) (Vec 0 0 0) 2 false white.
Definition row_z : gravpoint := Gravpoint 8 (Vec 2 0 0) (Vec 0 0 0) 2 false white.

Definition row : list gravpoint := [row_x; row_y; row_z].

(** * The rest of the program *)

(** ** Drawing tools *)

(** A colour handed to pygame: an integer, or a triple of a body. *)
Inductive colour : Type :=
| IntColour (n : Z)
| RgbColour (c : rgb).

(** The arguments of one call of [pygame.draw.circle]; the surface is the
    list of the calls it has received, oldest first. *)
Record circle : Type := Circle {
  circle_colour : colour;
  circle_center : Z * Z;
  circle_radius : Z
}.

(** [draw_3dcircle], for the values of the globals [ORIGINX], [ORIGINY]. *)
Definition draw_3dcircle (ORIGINX ORIGINY : R) (colour : colour) (a : vec)
           (radius : Z) : circle :=
  let ax := vget a 0 + (vget a 2 * 0.3) + ORIGINX in
  let ay := vget a 1 + (vget a 2 * 0.3) + ORIGINY in
  Circle colour (py_int ax, py_int ay) radius.

(** [l[i]] on a list, for an index that is not negative. *)
Definition index {A : Type} (l : list A) (i : nat) : result A :=
  match nth_error l i with
  | Some x => Normal x
  | None => Raise IndexError
  end.

(** The argument [colour] of [draw_points]: one integer for all points, or a
    sequence with a colour for every point. *)
Inductive colours : Type :=
| OneColour (n : Z)
| ColourList (l : list rgb).

(** A loop of drawing calls: the circles drawn before an exception stay on
    the surface. *)
Fixpoint draw_loop (call : nat -> result circle) (r : list nat)
         (surface : list circle) : result unit * list circle :=
  match r with
  | [] => (Normal tt, surface)
  | i :: r' =>
      match call i with
      | Normal c => draw_loop call r' (surface ++ [c])
      | Raise e => (Raise e, surface)
      end
  end.

Definition draw_points (ORIGINX ORIGINY : R) (colour : colours)
           (points : list vec) (radi : list Z) (surface : list circle)
  : result unit * list circle :=
  match colour with
  | OneColour n =>
      draw_loop (fun i =>
                   (let! p := index points i in
                    let! r := index radi i in
                    Normal (draw_3dcircle ORIGINX ORIGINY (IntColour n) p r))%result)
                (range 0 (length points)) surface
  | ColourList l =>
      draw_loop (fun i =>
                   (let! c := index l i in
                    let! p := index points i in
                    let! r := index radi i in
                    Normal (draw_3dcircle ORIGINX ORIGINY (RgbColour c) p r))%result)
                (range 0 (length points)) surface
  end.

(** The drawing of one frame in [main]: the three lists are pulled from
    [gpoints] and handed to [draw_points]. *)
Definition draw_frame (ORIGINX ORIGINY : R) (gpoints : list gravpoint)
           (surface : list circle) : result unit * list circle :=
  let points := map pos gpoints in
  let radi := map radius gpoints in
  let colors := map color gpoints in
  draw_points ORIGINX ORIGINY (ColourList colors) points radi surface.

(** ** Further notions used in the statements *)

Definition vneg (a : vec) : vec := Vec (- vx a) (- vy a) (- vz a).

(** Sum of a list of vectors, added up from zero as the source does. *)
Definition vsum (fs : list vec) : vec := fold_left vadd fs vzero.

Definition total_momentum (gpoints : list gravpoint) : vec :=
  vsum (map momentum gpoints).

(** Two bodies overlap: they are closer than the sum of their radii. *)
Definition overlap (a b : gravpoint) : Prop :=
  distance (pos a) (pos b) < IZR (radius a + radius b).

(** No two entries of the list overlap. *)
Definition no_overlap (s : list gravpoint) : Prop :=
  forall i j gi gj,
    (i < j)%nat -> nth_error s i = Some gi -> nth_error s j = Some gj ->
    ~ overlap gi gj.

(** The list without its entry at index [j]. *)
Fixpoint remove_nth (j : nat) (s : list gravpoint) : list gravpoint :=
  match s, j with
  | [], _ => []
  | _ :: s', O => s'
  | x :: s', S j' => x :: remove_nth j' s'
  end.

(** [move] applied [n] times. *)
Fixpoint moves (n : nat) (g : gravpoint) : gravpoint :=
  match n with
  | O => g
  | S n' => moves n' (move g)
  end.

(** Number of bodies a scenario name brings in. *)
Definition scenario_size (name : string) (size : nat) (argv : list string) : nat :=
  if in_argv name argv then size else 0%nat.

(** * Properties *)

(** ** Arithmetic of the helpers *)

Lemma truthy_false_iff (x : R) : truthy x = false <-> x = 0.
Proof. unfold truthy. destruct (Req_dec_T x 0); split; congruence. Qed.

Lemma truthy_true_iff (x : R) : truthy x = true <-> x <> 0.
Proof. unfold truthy. destruct (Req_dec_T x 0); split; congruence. Qed.

Lemma Req_bool_refl (x : R) : Req_bool x x = true.
Proof. unfold Req_bool. destruct (Req_dec_T x x); congruence. Qed.

Lemma Req_bool_true_iff (x y : R) : Req_bool x y = true <-> x = y.
Proof. unfold Req_bool. destruct (Req_dec_T x y); split; congruence. Qed.

Lemma Rlt_bool_true_iff (x y : R) : Rlt_bool x y = true <-> x < y.
Proof. unfold Rlt_bool. destruct (Rlt_dec x y); split; intros; congruence || lra. Qed.

Lemma Rlt_bool_false_iff (x y : R) : Rlt_bool x y = false <-> y <= x.
Proof. unfold Rlt_bool. destruct (Rlt_dec x y); split; intros; congruence || lra. Qed.

Lemma Rle_bool_true_iff (x y : R) : Rle_bool x y = true <-> x <= y.
Proof. unfold Rle_bool. destruct (Rle_dec x y); split; intros; congruence || lra. Qed.

Lemma distance_sqrt (p q : vec) :
  distance p q =
  sqrt ((vx p - vx q) ^ 2 + (vy p - vy q) ^ 2 + (vz p - vz q) ^ 2).
Proof. unfold distance. simpl. f_equal. ring. Qed.

Lemma distance_nonneg (p q : vec) : 0 <= distance p q.
Proof. rewrite distance_sqrt. apply sqrt_pos. Qed.

Lemma sum_squares_nonneg (a b c : R) : 0 <= a ^ 2 + b ^ 2 + c ^ 2.
Proof. nra. Qed.

Lemma distance_lt (p q : vec) (r : R) :
  0 < r ->
  (vx p - vx q) ^ 2 + (vy p - vy q) ^ 2 + (vz p - vz q) ^ 2 < r ^ 2 ->
  distance p q < r.
Proof.
  intros Hr H. rewrite distance_sqrt.
  replace r with (sqrt (r ^ 2)).
  - apply sqrt_lt_1; [apply sum_squares_nonneg | nra | exact H].
  - replace (r ^ 2) with (r * r) by ring. apply sqrt_square. lra.
Qed.

Lemma distance_ge (p q : vec) (r : R) :
  0 <= r ->
  r ^ 2 <= (vx p - vx q) ^ 2 + (vy p - vy q) ^ 2 + (vz p - vz q) ^ 2 ->
  r <= distance p q.
Proof.
  intros Hr H. rewrite distance_sqrt.
  replace r with (sqrt (r ^ 2)) at 1.
  - apply sqrt_le_1; [nra | apply sum_squares_nonneg | exact H].
  - replace (r ^ 2) with (r * r) by ring. apply sqrt_square. lra.
Qed.

(** ** The constructor *)

Lemma int_cube_root_pos (m : R) :
  0 < m -> int_cube_root m = Normal (py_int (Rpower m (1 / 3))).
Proof. intros H. unfold int_cube_root. destruct (Rlt_dec 0 m); [reflexivity | lra]. Qed.

Lemma init_pos (p : vec) (m : R) (v : vec) (i : bool) (c : rgb) :
  0 < m ->
  __init__ p m v i c = Normal (Gravpoint m p v (py_int (Rpower m (1 / 3))) i c).
Proof. intros H. unfold __init__. rewrite (int_cube_root_pos m H). reflexivity. Qed.

Lemma init_fields (p : vec) (m : R) (v : vec) (i : bool) (c : rgb) (g : gravpoint) :
  __init__ p m v i c = Normal g ->
  mass g = m /\ pos g = p /\ vel g = v /\ imov g = i /\ color g = c /\
  int_cube_root m = Normal (radius g).
Proof.
  unfold __init__. destruct (int_cube_root m) as [r | e]; simpl; [| discriminate].
  intros H. injection H as <-. simpl. repeat split; reflexivity.
Qed.

(** ** Merging: mass and velocity *)

(** C2. For two bodies of positive mass the merge exists, its mass is the sum
    of the two masses, its velocity is the momentum-weighted average
    (v1*m1 + v2*m2) / (m1 + m2), and so total mass and total momentum are
    those of the two operands. *)
Theorem add_conserves_mass_and_momentum (A B : gravpoint) :
  0 < mass A -> 0 < mass B ->
  exists g,
    __add__ A B = Normal g /\
    mass g = mass A + mass B /\
    vel g = vdiv (vadd (vscale (vel A) (mass A)) (vscale (vel B) (mass B)))
                 (mass A + mass B) /\
    momentum g = vadd (momentum A) (momentum B).
Proof.
  intros HA HB. unfold __add__.
  rewrite init_pos by lra.
  eexists. split; [reflexivity |]. simpl. repeat split.
  unfold momentum, vdiv, vadd, vscale. simpl.
  f_equal; field; lra.
Qed.

Lemma add_conserves_mass_and_momentum_witness :
  exists g,
    __add__ body_1 body_2 = Normal g /\
    mass g = mass body_1 + mass body_2 /\
    vel g = vdiv (vadd (vscale (vel body_1) (mass body_1))
                       (vscale (vel body_2) (mass body_2)))
                 (mass body_1 + mass body_2) /\
    momentum g = vadd (momentum body_1) (momentum body_2).
Proof.
  apply (add_conserves_mass_and_momentum body_1 body_2); simpl; lra.
Defined.

Lemma add_fields (A B g : gravpoint) :
  __add__ A B = Normal g ->
  mass g = mass A + mass B /\
  imov g = imov A || imov B /\
  pos g = (if imov A || imov B
           then if imov A then pos A else pos B
           else vadd (pos A) (vdiv (pos B) 2)) /\
  int_cube_root (mass g) = Normal (radius g).
Proof.
  unfold __add__. intros H. apply init_fields in H.
  destruct H as (Hm & Hp & _ & Hi & _ & Hr).
  rewrite Hm. repeat split; assumption.
Qed.

Lemma add_pos_mass (A B : gravpoint) :
  0 < mass A + mass B -> exists g, __add__ A B = Normal g.
Proof. intros H. unfold __add__. rewrite init_pos by exact H. eexists. reflexivity. Qed.

(** ** Merging: position *)

(** C3. The merge of the two movable bodies [body_1] at (2,0,0) and [body_2]
    at (4,0,0) is placed at (4,0,0), the first position plus half the second
    one, and not at their midpoint (3,0,0). *)
Theorem add_position_off_midpoint :
  imov body_1 = false /\ imov body_2 = false /\
  exists g,
    __add__ body_1 body_2 = Normal g /\
    pos g = Vec 4 0 0 /\
    vdiv (vadd (pos body_1) (pos body_2)) 2 = Vec 3 0 0 /\
    pos g <> vdiv (vadd (pos body_1) (pos body_2)) 2.
Proof.
  split; [reflexivity | split; [reflexivity |]].
  destruct (add_pos_mass body_1 body_2) as [g Hg]; [simpl; lra |].
  exists g. split; [exact Hg |].
  apply add_fields in Hg. destruct Hg as (_ & _ & Hp & _).
  simpl in Hp. unfold vadd, vdiv in Hp. simpl in Hp.
  assert (Hpos : pos g = Vec 4 0 0).
  { rewrite Hp. f_equal; lra. }
  assert (Hmid : vdiv (vadd (pos body_1) (pos body_2)) 2 = Vec 3 0 0).
  { unfold vdiv, vadd. simpl. f_equal; lra. }
  repeat split; [exact Hpos | exact Hmid |].
  rewrite Hpos, Hmid. intros E. injection E as E. lra.
Qed.

(** What the source computes for two movable bodies. *)
Lemma add_position_movable (A B g : gravpoint) :
  imov A = false -> imov B = false ->
  __add__ A B = Normal g ->
  pos g = vadd (pos A) (vdiv (pos B) 2).
Proof.
  intros HA HB H. apply add_fields in H. destruct H as (_ & _ & Hp & _).
  rewrite HA, HB in Hp. exact Hp.
Qed.

(** C7. The merge of two bodies is immovable exactly when one of them is; it
    then sits where the immovable operand sits, and where the first operand
    sits when both are immovable. *)
Theorem add_immovable (A B : gravpoint) :
  0 < mass A -> 0 < mass B ->
  exists g,
    __add__ A B = Normal g /\
    imov g = imov A || imov B /\
    (imov A = true -> imov B = false -> imov g = true /\ pos g = pos A) /\
    (imov A = false -> imov B = true -> imov g = true /\ pos g = pos B) /\
    (imov A = true -> imov B = true -> imov g = true /\ pos g = pos A).
Proof.
  intros HA HB.
  destruct (add_pos_mass A B) as [g Hg]; [lra |].
  exists g. split; [exact Hg |].
  apply add_fields in Hg. destruct Hg as (_ & Hi & Hp & _).
  split; [exact Hi |].
  split; [| split]; intros EA EB; rewrite EA, EB in *; simpl in *;
    split; assumption.
Qed.

Lemma add_immovable_witness :
  exists g,
    __add__ anchor body_2 = Normal g /\
    imov g = imov anchor || imov body_2 /\
    (imov anchor = true -> imov body_2 = false ->
     imov g = true /\ pos g = pos anchor) /\
    (imov anchor = false -> imov body_2 = true ->
     imov g = true /\ pos g = pos body_2) /\
    (imov anchor = true -> imov body_2 = true ->
     imov g = true /\ pos g = pos anchor).
Proof.
  apply (add_immovable anchor body_2); simpl; lra.
Defined.

(** ** normalize *)

Lemma normalize_zero : normalize vzero = vzero.
Proof.
  unfold normalize, all_, vzero. simpl.
  replace (truthy 0) with false; [reflexivity |].
  symmetry. apply truthy_false_iff. reflexivity.
Qed.

(** An entry equal to zero is enough for [normalize] to return at once. *)
Lemma normalize_some_zero (v : vec) :
  vx v = 0 \/ vy v = 0 \/ vz v = 0 -> normalize v = v.
Proof.
  intros H. unfold normalize.
  replace (all_ v) with false; [reflexivity |].
  symmetry. unfold all_.
  destruct H as [H | [H | H]]; apply truthy_false_iff in H; rewrite H;
    repeat rewrite ?andb_false_l, ?andb_false_r; reflexivity.
Qed.

Lemma normalize_no_zero (v : vec) :
  vx v <> 0 -> vy v <> 0 -> vz v <> 0 ->
  normalize v = vdiv v (distance v vzero) /\
  distance (normalize v) vzero = 1.
Proof.
  intros Hx Hy Hz.
  assert (E : normalize v = vdiv v (distance v vzero)).
  { unfold normalize, all_.
    apply truthy_true_iff in Hx, Hy, Hz. rewrite Hx, Hy, Hz. reflexivity. }
  split; [exact E |].
  rewrite E. apply truthy_true_iff in Hx.
  set (d := distance v vzero).
  assert (Hd2 : d * d = vx v ^ 2 + vy v ^ 2 + vz v ^ 2).
  { unfold d. rewrite distance_sqrt. rewrite sqrt_sqrt.
    - unfold vzero. simpl. ring.
    - apply sum_squares_nonneg. }
  assert (Hd0 : 0 <= d) by apply distance_nonneg.
  assert (Hd : 0 < d) by nra.
  rewrite distance_sqrt. unfold vdiv, vzero. simpl.
  replace ((vx v / d - 0) * ((vx v / d - 0) * 1) +
           (vy v / d - 0) * ((vy v / d - 0) * 1) +
           (vz v / d - 0) * ((vz v / d - 0) * 1))
    with ((vx v ^ 2 + vy v ^ 2 + vz v ^ 2) / (d * d)) by (field; lra).
  rewrite <- Hd2.
  replace (d * d / (d * d)) with 1 by (field; lra).
  apply sqrt_1.
Qed.

(** C4. The nonzero vector (3,0,4) is left as it is by [normalize], because
    one of its entries is zero; its length stays 5. *)
Theorem normalize_keeps_vector_with_zero_entry :
  Vec 3 0 4 <> vzero /\
  normalize (Vec 3 0 4) = Vec 3 0 4 /\
  normalize (Vec 3 0 4) <> vdiv (Vec 3 0 4) (distance (Vec 3 0 4) vzero) /\
  distance (normalize (Vec 3 0 4)) vzero = 5.
Proof.
  assert (E : normalize (Vec 3 0 4) = Vec 3 0 4).
  { apply normalize_some_zero. simpl. right. left. reflexivity. }
  assert (D : distance (Vec 3 0 4) vzero = 5).
  { rewrite distance_sqrt. unfold vzero. simpl.
    replace ((3 - 0) * ((3 - 0) * 1) + (0 - 0) * ((0 - 0) * 1) +
             (4 - 0) * ((4 - 0) * 1)) with (5 * 5) by ring.
    apply sqrt_square. lra. }
  split; [| split; [exact E | split]].
  - unfold vzero. intros H. injection H as H. lra.
  - rewrite E, D. unfold vdiv. simpl. intros H. injection H as H. lra.
  - rewrite E. exact D.
Qed.

(** ** The integrator on an immovable body *)

Lemma integrate_immovable (g : gravpoint) (f : vec) :
  imov g = true ->
  integrate g f = set_vel g (vadd (vel g) (vdiv f (mass g))).
Proof. intros H. unfold integrate, move, update. simpl. rewrite H. reflexivity. Qed.

(** C5, as the source has it. Whatever forces are applied over any number of
    ticks, an immovable body keeps its position (and its flag and mass); its
    velocity does change: every tick adds force / mass to it. *)
Theorem immovable_keeps_position (g : gravpoint) (forces : list vec) :
  imov g = true ->
  pos (integrate_ticks g forces) = pos g /\
  imov (integrate_ticks g forces) = true /\
  mass (integrate_ticks g forces) = mass g /\
  vel (integrate_ticks g forces) =
    fold_left (fun v f => vadd v (vdiv f (mass g))) forces (vel g).
Proof.
  unfold integrate_ticks. revert g.
  induction forces as [| f forces IH]; intros g H; simpl.
  - repeat split. exact H.
  - rewrite (integrate_immovable g f H).
    destruct (IH (set_vel g (vadd (vel g) (vdiv f (mass g)))) H)
      as (Hp & Hi & Hm & Hv).
    repeat split; assumption.
Qed.

Lemma immovable_keeps_position_witness :
  pos (integrate_ticks anchor [Vec 8 0 0; Vec 0 16 0]) = pos anchor /\
  imov (integrate_ticks anchor [Vec 8 0 0; Vec 0 16 0]) = true /\
  mass (integrate_ticks anchor [Vec 8 0 0; Vec 0 16 0]) = mass anchor /\
  vel (integrate_ticks anchor [Vec 8 0 0; Vec 0 16 0]) =
    fold_left (fun v f => vadd v (vdiv f (mass anchor)))
              [Vec 8 0 0; Vec 0 16 0] (vel anchor).
Proof.
  apply (immovable_keeps_position anchor [Vec 8 0 0; Vec 0 16 0]).
  reflexivity.
Defined.

(** One tick with the force (8,0,0) changes the velocity of the immovable
    body [anchor] from (0,0,0) to (1,0,0). *)
Lemma immovable_velocity_changes :
  imov anchor = true /\
  vel (integrate_ticks anchor [Vec 8 0 0]) = Vec 1 0 0 /\
  vel (integrate_ticks anchor [Vec 8 0 0]) <> vel anchor.
Proof.
  assert (E : vel (integrate_ticks anchor [Vec 8 0 0]) = Vec 1 0 0).
  { unfold integrate_ticks. simpl. unfold vadd, vdiv. simpl. f_equal; lra. }
  split; [reflexivity | split; [exact E |]].
  rewrite E. simpl. intros H. injection H as H. lra.
Qed.

(** In the pass of [gravity] that applies the forces, and in the pass of
    [updateall] that moves the bodies, the body at every index goes through
    [integrate]. *)
Lemma integrator_passes_pointwise (gpoints : list gravpoint) (fs : list vec)
      (i : nat) (g : gravpoint) (f : vec) :
  nth_error gpoints i = Some g ->
  nth_error fs i = Some f ->
  nth_error (map move (update_each gpoints fs)) i = Some (integrate g f).
Proof.
  revert fs i. induction gpoints as [| x gpoints IH]; intros fs i Hg Hf.
  - destruct i; discriminate.
  - destruct fs as [| y fs]; [destruct i; discriminate |].
    destruct i as [| i]; simpl in *.
    + injection Hg as <-. injection Hf as <-. reflexivity.
    + apply IH; assumption.
Qed.

(** ** Scenario selection *)

Lemma centerp_built :
  __init__ (Vec 0 0 0) 1500 (Vec 0 0 0) true white =
  Normal (Gravpoint 1500 (Vec 0 0 0) (Vec 0 0 0)
                    (py_int (Rpower 1500 (1 / 3))) true white).
Proof. apply init_pos. lra. Qed.

Lemma module_gpoints_unrecognized (argv : list string) :
  recognized argv = false -> module_gpoints argv = Normal [].
Proof.
  unfold recognized, scenario_names. cbn [existsb].
  intros H. repeat (apply orb_false_iff in H; destruct H as [? H]).
  unfold module_gpoints. rewrite centerp_built. cbn [rbind].
  repeat match goal with E : in_argv _ argv = false |- _ => rewrite E; clear E end.
  reflexivity.
Qed.

(** C6. Run without a scenario name, the program builds no bodies, prints
    nothing and does not exit: the name [gpoints] is bound all the same, the
    check of [main] passes, and the frame loop is entered with an empty
    list. *)
Theorem unrecognized_scenario_enters_loop :
  recognized ["newtoniangravity.py"%string] = false /\
  program ["newtoniangravity.py"%string] = MainLoop [] [] /\
  ~ (exists status stdout,
       program ["newtoniangravity.py"%string] = Exit status stdout /\
       status <> 0%Z /\ stdout <> []).
Proof.
  assert (E : program ["newtoniangravity.py"%string] = MainLoop [] []).
  { unfold program. rewrite module_gpoints_unrecognized by reflexivity.
    reflexivity. }
  split; [reflexivity | split; [exact E |]].
  intros (status & stdout & H & _). rewrite E in H. discriminate.
Qed.

(** ** The force pass *)

Lemma GRAVEC_G : GRAVEC = G.
Proof. unfold GRAVEC, G. lra. Qed.

Lemma G_pos : 0 < G.
Proof. unfold G. lra. Qed.

Lemma log_pos (x : R) : 0 < x -> log x = Normal (ln x).
Proof. intros H. unfold log. destruct (Rlt_dec 0 x); [reflexivity | lra]. Qed.

Lemma log_nonpos (x : R) : x <= 0 -> log x = Raise ValueError.
Proof. intros H. unfold log. destruct (Rlt_dec 0 x); [lra | reflexivity]. Qed.

Lemma pair_force_magnitude (a b : gravpoint) :
  positive_mass a -> positive_mass b ->
  pair_force a b = Normal (magnitude (mass a) (mass b) (pos a) (pos b)).
Proof.
  unfold positive_mass. intros Ha Hb. unfold pair_force, magnitude.
  rewrite GRAVEC_G. set (d := distance (pos a) (pos b)).
  unfold Req_bool, Rle_bool.
  replace (G * (mass a * 1000 * mass b * 1000))
    with (G * (mass a * 1000) * (mass b * 1000)) by ring.
  destruct (Req_dec_T d 0) as [Hd | Hd]; [reflexivity |].
  destruct (Rle_dec d 5) as [H5 | H5]; [| reflexivity].
  apply log_pos.
  assert (H0 : 0 <= d) by apply distance_nonneg.
  assert (Hd2 : 0 < d ^ 2) by (apply pow_lt; lra).
  apply Rdiv_lt_0_compat; [| exact Hd2].
  apply Rmult_lt_0_compat; [apply Rmult_lt_0_compat; [exact G_pos | lra] | lra].
Qed.

(** The logarithm is not guarded: with a mass that is not positive the pass
    stops with a ValueError at short range. *)
Lemma pair_force_domain_error :
  pair_force (Gravpoint 0 (Vec 0 0 0) (Vec 0 0 0) 0 false white)
             (Gravpoint 1 (Vec 3 0 0) (Vec 0 0 0) 1 false white)
  = Raise ValueError.
Proof.
  unfold pair_force. simpl mass. simpl pos.
  assert (D : distance (Vec 0 0 0) (Vec 3 0 0) = 3).
  { rewrite distance_sqrt. simpl.
    replace ((0 - 3) * ((0 - 3) * 1) + (0 - 0) * ((0 - 0) * 1) +
             (0 - 0) * ((0 - 0) * 1)) with (3 * 3) by ring.
    apply sqrt_square. lra. }
  rewrite D. unfold Req_bool, Rle_bool.
  destruct (Req_dec_T 3 0); [lra |].
  destruct (Rle_dec 3 5); [| lra].
  apply log_nonpos. lra.
Qed.

Lemma par_force_contribution (a b : gravpoint) :
  positive_mass a -> positive_mass b ->
  par_force a b = Normal (contribution a b).
Proof.
  intros Ha Hb. unfold par_force. rewrite pair_force_magnitude by assumption.
  reflexivity.
Qed.

(** The inner loop of [gravity] collects one contribution for every index
    other than [i], in the order of the list. *)
Lemma par_forces_contributions (i : nat) (mainpoint : gravpoint)
      (js : list (nat * gravpoint)) :
  positive_mass mainpoint ->
  Forall (fun p => positive_mass (snd p)) js ->
  par_forces i mainpoint js =
  Normal (map (fun p => contribution mainpoint (snd p))
              (filter (fun p => negb (i =? fst p)%nat) js)).
Proof.
  intros Hm. induction js as [| [j b] js IH]; intros HF; [reflexivity |].
  inversion HF as [| ? ? Hb HF']; subst. simpl in Hb.
  simpl. destruct (i =? j)%nat; simpl.
  - apply IH. exact HF'.
  - rewrite par_force_contribution by assumption. simpl.
    rewrite IH by exact HF'. reflexivity.
Qed.

Lemma In_combine_seq (l : list gravpoint) (a j : nat) (g : gravpoint) :
  nth_error l j = Some g -> In ((a + j)%nat, g) (combine (seq a (length l)) l).
Proof.
  revert a j. induction l as [| x l IH]; intros a j H.
  - destruct j; discriminate.
  - destruct j as [| j]; simpl in *.
    + injection H as <-. left. f_equal. lia.
    + right. replace (a + S j)%nat with (S a + j)%nat by lia. apply IH. exact H.
Qed.

Lemma In_enumerate (gpoints : list gravpoint) (j : nat) (g : gravpoint) :
  nth_error gpoints j = Some g -> In (j, g) (enumerate gpoints).
Proof. intros H. apply (In_combine_seq gpoints 0 j g H). Qed.

Lemma Forall_enumerate (P : gravpoint -> Prop) (gpoints : list gravpoint) :
  Forall P gpoints -> Forall (fun p => P (snd p)) (enumerate gpoints).
Proof.
  unfold enumerate. generalize 0%nat.
  induction gpoints as [| x l IH]; intros a H; simpl; [constructor |].
  inversion H; subst. constructor; [assumption | apply IH; assumption].
Qed.

(** C1. In the force pass over bodies of positive mass, the scalar computed
    for two distinct indices i and j is the piecewise function of the design
    document: 0 at distance 0, otherwise raw / d^2, and ln (raw / d^2) when
    d <= 5, with raw = G * (mass_i * 1000) * (mass_j * 1000); the vector
    collected for the pair is the normalized direction times that scalar. *)
Theorem gravity_pair_magnitude (gpoints : list gravpoint) (i j : nat)
        (mainpoint otherpoint : gravpoint) :
  Forall positive_mass gpoints ->
  nth_error gpoints i = Some mainpoint ->
  nth_error gpoints j = Some otherpoint ->
  i <> j ->
  pair_force mainpoint otherpoint =
    Normal (magnitude (mass mainpoint) (mass otherpoint)
                      (pos mainpoint) (pos otherpoint)) /\
  exists fs,
    par_forces i mainpoint (enumerate gpoints) = Normal fs /\
    In (contribution mainpoint otherpoint) fs.
Proof.
  intros HF Hi Hj Hne.
  assert (Hm : positive_mass mainpoint).
  { eapply Forall_forall; [exact HF | eapply nth_error_In; exact Hi]. }
  assert (Ho : positive_mass otherpoint).
  { eapply Forall_forall; [exact HF | eapply nth_error_In; exact Hj]. }
  split; [apply pair_force_magnitude; assumption |].
  eexists. split.
  - apply par_forces_contributions; [exact Hm |].
    apply Forall_enumerate. exact HF.
  - apply (in_map (fun p => contribution mainpoint (snd p)) _ (j, otherpoint)).
    apply filter_In. split; [apply In_enumerate; exact Hj |].
    simpl. apply negb_true_iff. apply Nat.eqb_neq. exact Hne.
Qed.

Lemma gravity_pair_magnitude_witness :
  pair_force body_1 body_2 =
    Normal (magnitude (mass body_1) (mass body_2) (pos body_1) (pos body_2)) /\
  exists fs,
    par_forces 0 body_1 (enumerate [body_1; body_2]) = Normal fs /\
    In (contribution body_1 body_2) fs.
Proof.
  apply (gravity_pair_magnitude [body_1; body_2] 0 1 body_1 body_2).
  - repeat constructor; unfold positive_mass; simpl; lra.
  - reflexivity.
  - reflexivity.
  - lia.
Defined.

(** ** List operations of the merge pass *)

Lemma eq_refl_gravpoint (g : gravpoint) : __eq__ g g = true.
Proof.
  unfold __eq__. rewrite !Bool.eqb_reflx, Req_bool_refl. reflexivity.
Qed.

Lemma eq_gravpoint_intro (a b : gravpoint) :
  all_ (pos a) = all_ (pos b) ->
  all_ (vel a) = all_ (vel b) ->
  mass a = mass b ->
  __eq__ a b = true.
Proof.
  intros Hp Hv Hm. unfold __eq__. rewrite Hp, Hv, Hm.
  rewrite !Bool.eqb_reflx, Req_bool_refl. reflexivity.
Qed.

Lemma eq_gravpoint_mass (a b : gravpoint) :
  mass a <> mass b -> __eq__ a b = false.
Proof.
  intros Hm. unfold __eq__.
  destruct (Req_bool (mass a) (mass b)) eqn:E.
  - apply Req_bool_true_iff in E. contradiction.
  - rewrite andb_false_r. reflexivity.
Qed.

Lemma remove_first_In (x : gravpoint) (s : list gravpoint) :
  In x s -> exists s', remove_first x s = Some s'.
Proof.
  induction s as [| y s IH]; intros H; [contradiction |].
  simpl. destruct (__eq__ y x) eqn:E; [eexists; reflexivity |].
  destruct H as [H | H].
  - subst y. rewrite eq_refl_gravpoint in E. discriminate.
  - destruct (IH H) as [s' Hs']. rewrite Hs'. eexists. reflexivity.
Qed.

Lemma remove_first_Forall (P : gravpoint -> Prop) (x : gravpoint)
      (s s' : list gravpoint) :
  remove_first x s = Some s' -> Forall P s -> Forall P s'.
Proof.
  revert s'. induction s as [| y s IH]; intros s' H HF; [discriminate |].
  simpl in H. inversion HF as [| ? ? Hy Hs]; subst.
  destruct (__eq__ y x).
  - injection H as <-. exact Hs.
  - destruct (remove_first x s) as [t |]; [| discriminate].
    injection H as <-. constructor; [exact Hy | apply IH; [reflexivity | exact Hs]].
Qed.

Lemma remove_first_length (x : gravpoint) (s s' : list gravpoint) :
  remove_first x s = Some s' -> length s = S (length s').
Proof.
  revert s'. induction s as [| y s IH]; intros s' H; [discriminate |].
  simpl in H. destruct (__eq__ y x).
  - injection H as <-. reflexivity.
  - destruct (remove_first x s) as [t |]; [| discriminate].
    injection H as <-. simpl. f_equal. apply IH. reflexivity.
Qed.

Lemma list_assign_Forall (P : gravpoint -> Prop) (s : list gravpoint)
      (i : nat) (g : gravpoint) :
  Forall P s -> P g -> Forall P (list_assign s i g).
Proof.
  revert i. induction s as [| y s IH]; intros i HF Hg; [constructor |].
  inversion HF; subst. destruct i; simpl; constructor; auto.
Qed.

Lemma list_assign_length (s : list gravpoint) (i : nat) (g : gravpoint) :
  length (list_assign s i g) = length s.
Proof.
  revert i. induction s as [| y s IH]; intros i; [reflexivity |].
  destruct i; simpl; [reflexivity | f_equal; apply IH].
Qed.

Lemma nth_error_Forall (P : gravpoint -> Prop) (s : list gravpoint)
      (i : nat) (g : gravpoint) :
  Forall P s -> nth_error s i = Some g -> P g.
Proof.
  intros HF H. eapply Forall_forall; [exact HF | eapply nth_error_In; exact H].
Qed.

(** ** One pair of the merge pass *)

(** Resolve the reads [gpoints[i]] and [gpoints[j]] met before the list is
    changed. *)
Ltac reads Hi Hj :=
  repeat (first [rewrite Hi | rewrite Hj]; cbv beta iota).

(** The pair is left alone when the two bodies do not overlap. *)
Lemma merge_pair_far (i j : nat) (s : list gravpoint) (gi gj : gravpoint) :
  nth_error s i = Some gi ->
  nth_error s j = Some gj ->
  IZR (radius gi + radius gj) <= distance (pos gi) (pos gj) ->
  merge_pair i j s = (Normal tt, s).
Proof.
  intros Hi Hj Hd. unfold merge_pair, bind, getitem. reads Hi Hj.
  apply Rlt_bool_false_iff in Hd. rewrite Hd. reflexivity.
Qed.

(** Two overlapping bodies at indices [i < j]: an entry equal to the second
    one is removed and the merge is stored at index [i] of what is left. *)
Lemma merge_pair_near (i j : nat) (s s' : list gravpoint) (gi gj new : gravpoint) :
  nth_error s i = Some gi ->
  nth_error s j = Some gj ->
  distance (pos gi) (pos gj) < IZR (radius gi + radius gj) ->
  __add__ gi gj = Normal new ->
  (i < j)%nat ->
  remove_first gj s = Some s' ->
  merge_pair i j s = (Normal tt, list_assign s' i new).
Proof.
  intros Hi Hj Hd Hadd Hlt Hrm. unfold merge_pair, bind, getitem.
  reads Hi Hj. apply Rlt_bool_true_iff in Hd. rewrite Hd.
  reads Hi Hj. unfold lift. rewrite Hadd. cbv beta iota.
  replace (j <? i)%nat with false by (symmetry; apply Nat.ltb_ge; lia).
  reads Hi Hj. unfold remove. rewrite Hrm. unfold setitem.
  assert (Hlen : (i <? length s')%nat = true).
  { apply Nat.ltb_lt. apply remove_first_length in Hrm.
    assert (j < length s)%nat by (apply nth_error_Some; congruence). lia. }
  rewrite Hlen. reflexivity.
Qed.

(** An index out of range raises IndexError before anything is changed;
    the handler then goes on to the next pair. *)
Lemma merge_pair_out_of_range (i j : nat) (s : list gravpoint) :
  nth_error s i = None \/ nth_error s j = None ->
  merge_pair i j s = (Raise IndexError, s) /\
  try_except_IndexError (merge_pair i j) s = (Normal tt, s).
Proof.
  intros H.
  assert (E : merge_pair i j s = (Raise IndexError, s)).
  { unfold merge_pair, bind, getitem.
    destruct (nth_error s i) as [gi |] eqn:Hi.
    - destruct H as [H | H]; [discriminate | rewrite H; reflexivity].
    - reflexivity. }
  split; [exact E |]. unfold try_except_IndexError. rewrite E. reflexivity.
Qed.

Section MergePass.

(** A property of bodies that merging keeps. *)
Variable Pb : gravpoint -> Prop.
Hypothesis Pb_add :
  forall a b, Pb a -> Pb b -> exists g, __add__ a b = Normal g /\ Pb g.

(** Whatever the two indices are, the guarded pair neither raises nor
    breaks the property, and it never makes the list longer. *)
Lemma guarded_pair_safe (i j : nat) (s : list gravpoint) :
  Forall Pb s ->
  exists s',
    try_except_IndexError (merge_pair i j) s = (Normal tt, s') /\
    Forall Pb s' /\ (length s' <= length s)%nat.
Proof.
  intros HF.
  destruct (nth_error s i) as [gi |] eqn:Hi;
    [| exists s; split; [apply merge_pair_out_of_range; auto | auto]].
  destruct (nth_error s j) as [gj |] eqn:Hj;
    [| exists s; split; [apply merge_pair_out_of_range; auto | auto]].
  destruct (Rlt_dec (distance (pos gi) (pos gj)) (IZR (radius gi + radius gj)))
    as [Hd | Hd].
  2:{ exists s. split; [| auto]. unfold try_except_IndexError.
      rewrite (merge_pair_far i j s gi gj Hi Hj) by lra. reflexivity. }
  assert (Pi : Pb gi) by (eapply nth_error_Forall; eassumption).
  assert (Pj : Pb gj) by (eapply nth_error_Forall; eassumption).
  destruct (Pb_add gi gj Pi Pj) as (new & Hadd & Pnew).
  unfold try_except_IndexError, merge_pair, bind, getitem.
  reads Hi Hj. apply Rlt_bool_true_iff in Hd. rewrite Hd.
  reads Hi Hj. unfold lift. rewrite Hadd. cbv beta iota.
  destruct (j <? i)%nat.
  - reads Hi Hj. unfold remove.
    destruct (remove_first_In gi s) as [s' Hrm];
      [eapply nth_error_In; exact Hi |].
    rewrite Hrm. unfold setitem.
    pose proof (remove_first_length _ _ _ Hrm) as Hlen.
    pose proof (remove_first_Forall Pb _ _ _ Hrm HF) as HF'.
    destruct (j <? length s')%nat.
    + eexists. split; [reflexivity |]. split.
      * apply list_assign_Forall; assumption.
      * rewrite list_assign_length. lia.
    + exists s'. split; [reflexivity |]. split; [exact HF' | lia].
  - reads Hi Hj. unfold remove.
    destruct (remove_first_In gj s) as [s' Hrm];
      [eapply nth_error_In; exact Hj |].
    rewrite Hrm. unfold setitem.
    pose proof (remove_first_length _ _ _ Hrm) as Hlen.
    pose proof (remove_first_Forall Pb _ _ _ Hrm HF) as HF'.
    destruct (i <? length s')%nat.
    + eexists. split; [reflexivity |]. split.
      * apply list_assign_Forall; assumption.
      * rewrite list_assign_length. lia.
    + exists s'. split; [reflexivity |]. split; [exact HF' | lia].
Qed.

(** A loop whose body keeps [inv Pb n] without raising does so as a whole. *)
Lemma for_range_safe (n : nat) (body : nat -> M unit) (r : list nat) :
  (forall i s, inv Pb n s -> exists s', body i s = (Normal tt, s') /\ inv Pb n s') ->
  forall s, inv Pb n s ->
  exists s', for_range r body s = (Normal tt, s') /\ inv Pb n s'.
Proof.
  intros Hbody. induction r as [| i r IH]; intros s Hs.
  - exists s. split; [reflexivity | exact Hs].
  - simpl. unfold bind. destruct (Hbody i s Hs) as (s1 & E1 & H1).
    rewrite E1. apply IH. exact H1.
Qed.

Lemma merge_detect_safe (s : list gravpoint) :
  Forall Pb s ->
  exists s',
    merge_detect s = (Normal tt, s') /\
    Forall Pb s' /\ (length s' <= length s)%nat.
Proof.
  intros HF. unfold merge_detect. unfold bind at 1. unfold len at 1.
  apply (for_range_safe (length s)); [| split; [exact HF | lia]].
  intros i s1 H1. unfold merge_row, bind, len.
  apply (for_range_safe (length s)); [| exact H1].
  intros j s2 [HF2 Hlen2].
  destruct (guarded_pair_safe i j s2 HF2) as (s3 & E & HF3 & Hlen3).
  exists s3. split; [exact E |]. split; [exact HF3 | lia].
Qed.

End MergePass.

(** ** The radius of a body *)

Lemma Rpower_pos (x y : R) : 0 < Rpower x y.
Proof. unfold Rpower. apply exp_pos. Qed.

(** [Rpower m (1/3)] is the cube root of a positive [m]. *)
Lemma cube_root_cubed (m : R) : 0 < m -> Rpower m (1 / 3) ^ 3 = m.
Proof.
  intros H. rewrite <- (Rpower_pow 3) by apply Rpower_pos.
  rewrite Rpower_mult.
  replace (1 / 3 * INR 3) with 1 by (simpl; field).
  apply Rpower_1. exact H.
Qed.

Lemma py_int_nonneg (x : R) : 0 <= x -> py_int x = Int_part x.
Proof. intros H. unfold py_int. destruct (Rle_dec 0 x); [reflexivity | lra]. Qed.

Lemma int_cube_root_floor (m : R) :
  0 < m -> int_cube_root m = Normal (floor_cbrt m).
Proof.
  intros H. rewrite int_cube_root_pos by exact H.
  rewrite py_int_nonneg; [reflexivity |].
  left. apply Rpower_pos.
Qed.

(** The floor of the cube root is the integer whose cube is just below. *)
Lemma floor_cbrt_bounds (m : R) (k : Z) :
  (0 <= k)%Z -> IZR k ^ 3 <= m < (IZR k + 1) ^ 3 -> 0 < m ->
  floor_cbrt m = k.
Proof.
  intros Hk [Hlo Hhi] Hm. unfold floor_cbrt.
  pose proof (cube_root_cubed m Hm) as Hc.
  pose proof (Rpower_pos m (1 / 3)) as Hp.
  set (c := Rpower m (1 / 3)) in *.
  assert (Hk0 : 0 <= IZR k) by (apply IZR_le; exact Hk).
  symmetry. apply Int_part_spec. split.
  - destruct (Rlt_dec (c - 1) (IZR k)) as [H | H]; [exact H | exfalso].
    assert (H1 : IZR k + 1 <= c) by lra.
    assert (H2 : (IZR k + 1) ^ 3 <= c ^ 3) by (apply pow_incr; lra).
    lra.
  - destruct (Rle_dec (IZR k) c) as [H | H]; [exact H | exfalso].
    assert (H1 : c < IZR k) by lra.
    assert (H2 : c ^ 3 < IZR k ^ 3).
    { assert (E : IZR k ^ 3 - c ^ 3 =
                  (IZR k - c) * (IZR k ^ 2 + IZR k * c + c ^ 2)) by ring.
      assert (0 < (IZR k - c) * (IZR k ^ 2 + IZR k * c + c ^ 2));
        [apply Rmult_lt_0_compat; nra | lra]. }
    lra.
Qed.

Lemma init_valid (p : vec) (m : R) (v : vec) (i : bool) (c : rgb) :
  0 < m ->
  exists g, __init__ p m v i c = Normal g /\ valid_body g /\ mass g = m.
Proof.
  intros H. unfold __init__. rewrite int_cube_root_floor by exact H.
  eexists. split; [reflexivity |]. repeat split. exact H.
Qed.

Lemma add_positive (a b : gravpoint) :
  positive_mass a -> positive_mass b ->
  exists g, __add__ a b = Normal g /\ positive_mass g.
Proof.
  unfold positive_mass. intros Ha Hb.
  destruct (add_pos_mass a b) as [g Hg]; [lra |].
  exists g. split; [exact Hg |].
  apply add_fields in Hg. destruct Hg as (Hm & _). unfold positive_mass. lra.
Qed.

Lemma add_valid (a b : gravpoint) :
  valid_body a -> valid_body b ->
  exists g, __add__ a b = Normal g /\ valid_body g.
Proof.
  intros [Ha _] [Hb _].
  destruct (add_positive a b Ha Hb) as (g & Hg & Hpos).
  exists g. split; [exact Hg |]. split; [exact Hpos |].
  apply add_fields in Hg. destruct Hg as (_ & _ & _ & Hr).
  rewrite int_cube_root_floor in Hr by exact Hpos.
  injection Hr as Hr. unfold radius_ok. symmetry. exact Hr.
Qed.

(** ** The force and move passes leave mass and radius alone *)

Lemma update_mass_radius (g : gravpoint) (f : vec) :
  mass (update g f) = mass g /\ radius (update g f) = radius g.
Proof. split; reflexivity. Qed.

Lemma move_mass_radius (g : gravpoint) :
  mass (move g) = mass g /\ radius (move g) = radius g.
Proof. unfold move. destruct (negb (imov g)); split; reflexivity. Qed.

Lemma valid_body_ext (g g' : gravpoint) :
  mass g' = mass g -> radius g' = radius g -> valid_body g -> valid_body g'.
Proof.
  unfold valid_body, positive_mass, radius_ok. intros Hm Hr [H1 H2].
  rewrite Hm, Hr. split; assumption.
Qed.

Lemma update_each_length (s : list gravpoint) (fs : list vec) :
  length (update_each s fs) = length s.
Proof.
  revert fs. induction s as [| g s IH]; intros fs; [destruct fs; reflexivity |].
  destruct fs as [| f fs]; [reflexivity |]. simpl. f_equal. apply IH.
Qed.

Lemma update_each_mass (s : list gravpoint) (fs : list vec) :
  map mass (update_each s fs) = map mass s.
Proof.
  revert fs. induction s as [| g s IH]; intros fs; [destruct fs; reflexivity |].
  destruct fs as [| f fs]; [reflexivity |]. simpl. f_equal. apply IH.
Qed.

Lemma update_each_valid (s : list gravpoint) (fs : list vec) :
  Forall valid_body s -> Forall valid_body (update_each s fs).
Proof.
  revert fs. induction s as [| g s IH]; intros fs HF; [destruct fs; constructor |].
  destruct fs as [| f fs]; [exact HF |]. inversion HF; subst. simpl.
  constructor; [| apply IH; assumption].
  apply (valid_body_ext g); [reflexivity | reflexivity | assumption].
Qed.

Lemma move_each_mass (s : list gravpoint) :
  map mass (map move s) = map mass s.
Proof.
  induction s as [| g s IH]; [reflexivity |]. simpl.
  rewrite IH. f_equal. apply move_mass_radius.
Qed.

Lemma move_each_valid (s : list gravpoint) :
  Forall valid_body s -> Forall valid_body (map move s).
Proof.
  intros HF. apply Forall_map. eapply Forall_impl; [| exact HF].
  intros g Hg. apply (valid_body_ext g); [apply move_mass_radius .. | exact Hg].
Qed.

(** With positive masses no logarithm leaves its domain: every force of the
    pass is computed. *)
Lemma forces_from_computed (gpoints : list gravpoint) (ps : list (nat * gravpoint)) :
  Forall positive_mass gpoints ->
  Forall (fun p => positive_mass (snd p)) ps ->
  exists fs, forces_from gpoints ps = Normal fs.
Proof.
  intros HF. induction ps as [| [i g] ps IH]; intros HP.
  - eexists. reflexivity.
  - inversion HP as [| ? ? Hg HP']; subst. simpl in Hg.
    destruct (IH HP') as [fs Hfs]. simpl. unfold net_force.
    rewrite par_forces_contributions;
      [| exact Hg | apply Forall_enumerate; exact HF].
    simpl. rewrite Hfs. eexists. reflexivity.
Qed.

Lemma gravity_computed (s : list gravpoint) :
  Forall positive_mass s ->
  exists fs, forces s = Normal fs /\ gravity s = (Normal tt, update_each s fs).
Proof.
  intros HF.
  destruct (forces_from_computed s (enumerate s) HF) as [fs Hfs];
    [apply Forall_enumerate; exact HF |].
  exists fs. split; [exact Hfs |]. unfold gravity.
  unfold forces. rewrite Hfs. reflexivity.
Qed.

Lemma valid_positive (s : list gravpoint) :
  Forall valid_body s -> Forall positive_mass s.
Proof. apply Forall_impl. intros g [H _]. exact H. Qed.

(** After the merge pass, the rest of a tick keeps the masses, in order. *)
Lemma updateall_after_merge (s s1 : list gravpoint) :
  merge_detect s = (Normal tt, s1) ->
  Forall positive_mass s1 ->
  exists s2,
    updateall s = (Normal tt, s2) /\
    map mass s2 = map mass s1 /\
    map radius s2 = map radius s1.
Proof.
  intros Hm HF. destruct (gravity_computed s1 HF) as (fs & _ & Hg).
  exists (map move (update_each s1 fs)). split.
  - unfold updateall, bind. rewrite Hm, Hg. reflexivity.
  - split.
    + rewrite move_each_mass. apply update_each_mass.
    + clear. revert fs. induction s1 as [| g s1 IH]; intros fs;
        [destruct fs; reflexivity |].
      destruct fs as [| f fs]; simpl.
      * f_equal; [apply move_mass_radius |].
        specialize (IH []). destruct s1; [reflexivity | exact IH].
      * f_equal; [apply (move_mass_radius (update g f)) | apply IH].
Qed.

Lemma valid_body_1 : valid_body body_1.
Proof.
  split; [unfold positive_mass; simpl; lra |].
  unfold radius_ok. simpl. symmetry.
  apply floor_cbrt_bounds; [lia | simpl; lra | lra].
Qed.

Lemma valid_body_2 : valid_body body_2.
Proof.
  split; [unfold positive_mass; simpl; lra |].
  unfold radius_ok. simpl. symmetry.
  apply floor_cbrt_bounds; [lia | simpl; lra | lra].
Qed.

(** ** The merge pass and exceptions *)

(** X29. On bodies of positive mass the merge pass runs to its end without
    an exception, and what it leaves is again a list of bodies of positive
    mass, no longer than before. An index that has fallen out of range raises
    IndexError before the pair changes anything, and the handler skips the
    pair. *)
Theorem merge_detect_returns (gpoints : list gravpoint) :
  Forall positive_mass gpoints ->
  (exists gpoints',
     merge_detect gpoints = (Normal tt, gpoints') /\
     Forall positive_mass gpoints' /\
     (length gpoints' <= length gpoints)%nat) /\
  (forall i j s,
     nth_error s i = None \/ nth_error s j = None ->
     merge_pair i j s = (Raise IndexError, s) /\
     try_except_IndexError (merge_pair i j) s = (Normal tt, s)).
Proof.
  intros HF. split; [| intros i j s; apply merge_pair_out_of_range].
  exact (merge_detect_safe positive_mass add_positive gpoints HF).
Qed.

Lemma merge_detect_returns_witness :
  (exists gpoints',
     merge_detect row = (Normal tt, gpoints') /\
     Forall positive_mass gpoints' /\
     (length gpoints' <= length row)%nat) /\
  (forall i j s,
     nth_error s i = None \/ nth_error s j = None ->
     merge_pair i j s = (Raise IndexError, s) /\
     try_except_IndexError (merge_pair i j) s = (Normal tt, s)).
Proof.
  apply (merge_detect_returns row).
  repeat constructor; unfold positive_mass; simpl; lra.
Defined.

(** ** Total mass over a tick *)

Lemma floor_cbrt_100 : floor_cbrt 100 = 4%Z.
Proof. apply floor_cbrt_bounds; [lia | simpl; lra | lra]. Qed.

Lemma floor_cbrt_50 : floor_cbrt 50 = 3%Z.
Proof. apply floor_cbrt_bounds; [lia | simpl; lra | lra]. Qed.

Lemma scene_constructed :
  __init__ (Vec 1000 0 0) 100 (Vec 0 0 0) false white = Normal far_body /\
  __init__ (Vec 0 0 0) 50 (Vec 0 0 0) false white = Normal light_body /\
  __init__ (Vec 1 0 0) 100 (Vec 0 0 0) false white = Normal near_body.
Proof.
  unfold __init__.
  rewrite !int_cube_root_floor by lra.
  rewrite floor_cbrt_100, floor_cbrt_50. repeat split.
Qed.

Lemma scene_valid : Forall valid_body scene.
Proof.
  repeat constructor; unfold positive_mass, radius_ok; simpl;
    try lra; symmetry; first [exact floor_cbrt_100 | exact floor_cbrt_50].
Qed.

Lemma all_zero_vel : all_ (Vec 0 0 0) = false.
Proof.
  unfold all_. simpl. replace (truthy 0) with false; [reflexivity |].
  symmetry. apply truthy_false_iff. reflexivity.
Qed.

Lemma all_x_axis (x : R) : all_ (Vec x 0 0) = false.
Proof.
  unfold all_. simpl. replace (truthy 0) with false;
    [rewrite andb_false_r; reflexivity |].
  symmetry. apply truthy_false_iff. reflexivity.
Qed.

(** The far body compares equal to the near one: same mass, and in both
    positions and both velocities some entry is zero. *)
Lemma far_eq_near : __eq__ far_body near_body = true.
Proof.
  apply eq_gravpoint_intro; simpl; [rewrite !all_x_axis | |]; reflexivity.
Qed.

Lemma merge_detect_rows (s : list gravpoint) :
  merge_detect s = for_range (range 0 (length s)) merge_row s.
Proof. reflexivity. Qed.

Lemma merge_row_pairs (i : nat) (s : list gravpoint) :
  merge_row i s =
  for_range (range (i + 1) (length s))
            (fun j => try_except_IndexError (merge_pair i j)) s.
Proof. reflexivity. Qed.

Lemma for_range_nil (body : nat -> M unit) (s : list gravpoint) :
  for_range [] body s = (Normal tt, s).
Proof. reflexivity. Qed.

Lemma for_range_cons (i : nat) (r : list nat) (body : nat -> M unit)
      (s : list gravpoint) :
  for_range (i :: r) body s =
  match body i s with
  | (Normal _, s') => for_range r body s'
  | (Raise e, s') => (Raise e, s')
  end.
Proof. reflexivity. Qed.

Lemma scene_merge_detect :
  exists merged,
    __add__ light_body near_body = Normal merged /\
    mass merged = 150 /\
    merge_detect scene = (Normal tt, [light_body; merged]).
Proof.
  destruct (add_pos_mass light_body near_body) as [merged Hadd]; [simpl; lra |].
  exists merged. split; [exact Hadd |].
  assert (Hmass : mass merged = 150).
  { apply add_fields in Hadd. destruct Hadd as (Hm & _). rewrite Hm. simpl. lra. }
  split; [exact Hmass |].
  assert (H01 : try_except_IndexError (merge_pair 0 1) scene = (Normal tt, scene)).
  { unfold try_except_IndexError.
    rewrite (merge_pair_far 0 1 scene far_body light_body); try reflexivity.
    simpl radius. simpl pos. apply distance_ge; simpl; lra. }
  assert (H02 : try_except_IndexError (merge_pair 0 2) scene = (Normal tt, scene)).
  { unfold try_except_IndexError.
    rewrite (merge_pair_far 0 2 scene far_body near_body); try reflexivity.
    simpl radius. simpl pos. apply distance_ge; simpl; lra. }
  assert (H12 : try_except_IndexError (merge_pair 1 2) scene =
                (Normal tt, [light_body; merged])).
  { unfold try_except_IndexError.
    rewrite (merge_pair_near 1 2 scene [light_body; near_body]
                             light_body near_body merged);
      try reflexivity; try exact Hadd; try lia.
    - simpl radius. simpl pos. apply distance_lt; simpl; lra.
    - unfold scene. simpl. rewrite far_eq_near. reflexivity. }
  rewrite merge_detect_rows. change (range 0 (length scene)) with [0; 1; 2]%nat.
  rewrite for_range_cons, merge_row_pairs.
  change (range (0 + 1) (length scene)) with [1; 2]%nat.
  rewrite for_range_cons, H01. cbv beta iota.
  rewrite for_range_cons, H02. cbv beta iota.
  rewrite for_range_nil.
  rewrite for_range_cons, merge_row_pairs.
  change (range (1 + 1) (length scene)) with [2]%nat.
  rewrite for_range_cons, H12. cbv beta iota.
  rewrite for_range_nil.
  rewrite for_range_cons, merge_row_pairs.
  reflexivity.
Qed.

(** C10. One tick on [scene]: the pair (light, near) overlaps and is merged;
    [list.remove] then drops the far body, the first entry that compares
    equal to the near one, and the merge overwrites the near body. The tick
    ends with the light body and the merge: total mass 200, where it was
    250. *)
Theorem tick_changes_total_mass :
  Forall valid_body scene /\
  total_mass scene = 250 /\
  exists gpoints',
    updateall scene = (Normal tt, gpoints') /\
    map mass gpoints' = [50; 150] /\
    total_mass gpoints' = 200 /\
    total_mass gpoints' <> total_mass scene.
Proof.
  split; [exact scene_valid |].
  assert (E0 : total_mass scene = 250) by (unfold total_mass; simpl; lra).
  split; [exact E0 |].
  destruct scene_merge_detect as (merged & Hadd & Hmass & Hmd).
  destruct (updateall_after_merge scene [light_body; merged] Hmd)
    as (s2 & Hup & Hm2 & _).
  { repeat constructor; unfold positive_mass; [simpl | rewrite Hmass]; lra. }
  exists s2. split; [exact Hup |].
  assert (Hm : map mass s2 = [50; 150]).
  { rewrite Hm2. simpl. rewrite Hmass. reflexivity. }
  assert (E1 : total_mass s2 = 200).
  { unfold total_mass. rewrite Hm. simpl. lra. }
  split; [exact Hm |]. split; [exact E1 |]. rewrite E0, E1. lra.
Qed.

(** ** What the merge pass leaves behind *)

(** C9. On [scene] the merge pass returns without an exception, yet the list
    it leaves is not one a merge of two bodies can give: the light body has
    been merged with the near one and is still in the list beside the merge,
    and the far body, which overlaps neither of the others, is gone. *)
Theorem merge_detect_keeps_merged_body :
  ~ overlap far_body light_body /\
  ~ overlap far_body near_body /\
  overlap light_body near_body /\
  exists merged,
    __add__ light_body near_body = Normal merged /\
    merge_detect scene = (Normal tt, [light_body; merged]) /\
    In light_body [light_body; merged] /\
    ~ In far_body [light_body; merged] /\
    ~ In near_body [light_body; merged].
Proof.
  split; [| split; [| split]].
  - unfold overlap. apply Rle_not_lt. simpl radius. simpl pos.
    apply distance_ge; simpl; lra.
  - unfold overlap. apply Rle_not_lt. simpl radius. simpl pos.
    apply distance_ge; simpl; lra.
  - unfold overlap. simpl radius. simpl pos. apply distance_lt; simpl; lra.
  - destruct scene_merge_detect as (merged & Hadd & Hmass & Hmd).
    exists merged. split; [exact Hadd |]. split; [exact Hmd |].
    split; [left; reflexivity |].
    assert (Hfl : far_body <> light_body).
    { intros E. apply (f_equal mass) in E. simpl in E. lra. }
    assert (Hnl : near_body <> light_body).
    { intros E. apply (f_equal mass) in E. simpl in E. lra. }
    assert (Hfm : far_body <> merged).
    { intros E. apply (f_equal mass) in E. rewrite Hmass in E. simpl in E. lra. }
    assert (Hnm : near_body <> merged).
    { intros E. apply (f_equal mass) in E. rewrite Hmass in E. simpl in E. lra. }
    split; intros [H | [H | []]]; congruence.
Qed.

(** ** A merge that the pass drops *)

Lemma row_x_eq_y : __eq__ row_x row_y = true.
Proof.
  apply eq_gravpoint_intro; simpl; [rewrite !all_x_axis | |]; reflexivity.
Qed.

(** The first pair is merged and the list shrinks to two entries; the pair
    (0, 2) of the same row then indexes past the end, the IndexError is
    caught, and the third body stays unmerged although it overlaps the
    merge. *)
Lemma merge_detect_skips_shifted_pair :
  exists merged,
    __add__ row_x row_y = Normal merged /\
    merge_pair 0 2 [merged; row_z] = (Raise IndexError, [merged; row_z]) /\
    merge_detect row = (Normal tt, [merged; row_z]) /\
    distance (pos merged) (pos row_z) < IZR (radius merged + radius row_z).
Proof.
  destruct (add_valid row_x row_y) as (merged & Hadd & [Hpos Hrad]).
  { split; [unfold positive_mass; simpl; lra |]. unfold radius_ok. simpl.
    symmetry. apply floor_cbrt_bounds; [lia | simpl; lra | lra]. }
  { split; [unfold positive_mass; simpl; lra |]. unfold radius_ok. simpl.
    symmetry. apply floor_cbrt_bounds; [lia | simpl; lra | lra]. }
  exists merged. split; [exact Hadd |].
  pose proof (add_fields _ _ _ Hadd) as (Hm & _ & Hp & _).
  simpl in Hm, Hp.
  assert (Hr : radius merged = 2%Z).
  { rewrite Hrad. apply floor_cbrt_bounds; rewrite ?Hm; [lia | simpl; lra | lra]. }
  assert (H01 : try_except_IndexError (merge_pair 0 1) row =
                (Normal tt, [merged; row_z])).
  { unfold try_except_IndexError.
    rewrite (merge_pair_near 0 1 row [row_y; row_z] row_x row_y merged);
      try reflexivity; try exact Hadd; try lia.
    - simpl radius. simpl pos. apply distance_lt; simpl; lra.
    - unfold row. simpl. rewrite row_x_eq_y. reflexivity. }
  destruct (merge_pair_out_of_range 0 2 [merged; row_z]) as [E02 H02];
    [right; reflexivity |].
  split; [exact E02 |]. split.
  - rewrite merge_detect_rows. change (range 0 (length row)) with [0; 1; 2]%nat.
    rewrite for_range_cons, merge_row_pairs.
    change (range (0 + 1) (length row)) with [1; 2]%nat.
    rewrite for_range_cons, H01. cbv beta iota.
    rewrite for_range_cons, H02. cbv beta iota.
    rewrite for_range_nil.
    rewrite for_range_cons, merge_row_pairs.
    change (range (1 + 1) (length [merged; row_z])) with (@nil nat).
    rewrite for_range_nil.
    rewrite for_range_cons, merge_row_pairs.
    reflexivity.
  - rewrite Hr, Hp. simpl radius. simpl pos.
    apply distance_lt; unfold vadd, vdiv; simpl; lra.
Qed.

(** ** The scenarios satisfy the radius invariant *)

Lemma circle_points_valid (r : list nat) (gpoints : list gravpoint) :
  Forall valid_body gpoints ->
  exists gpoints',
    circle_points gpoints r = Normal gpoints' /\ Forall valid_body gpoints'.
Proof.
  revert gpoints. induction r as [| i r IH]; intros gpoints HF.
  - exists gpoints. split; [reflexivity | exact HF].
  - simpl. unfold circle_point.
    match goal with
    | |- context [__init__ ?p ?m ?v ?b ?c] =>
        destruct (init_valid p m v b c) as (g & Hg & Hv & _); [lra |];
        rewrite Hg
    end.
    simpl. apply IH. apply Forall_app. split; [exact HF |].
    constructor; [exact Hv | constructor].
Qed.

Ltac all_valid :=
  repeat first [ assumption
               | apply Forall_nil
               | apply Forall_cons
               | apply Forall_app; split ].

(** Whatever the command line is, the module builds its bodies without an
    exception, every one with a positive mass and its radius. *)
Lemma module_gpoints_valid (argv : list string) :
  exists gpoints,
    module_gpoints argv = Normal gpoints /\ Forall valid_body gpoints.
Proof.
  unfold module_gpoints.
  repeat match goal with
  | |- context [__init__ ?p ?m ?v ?b ?c] =>
      let g := fresh "g" in
      let Hg := fresh "Hg" in
      let Hv := fresh "Hv" in
      destruct (init_valid p m v b c) as (g & Hg & Hv & _); [lra |];
      rewrite !Hg; clear Hg
  end.
  cbn [rbind app].
  destruct (in_argv "square" argv); cbn [rbind app];
    (destruct (in_argv "circle" argv); cbn [rbind app];
     [ match goal with
       | |- context [circle_points ?l ?r] =>
           let s := fresh "s" in
           let Hs := fresh "Hs" in
           let Hsv := fresh "Hsv" in
           destruct (circle_points_valid r l) as (s & Hs & Hsv);
           [all_valid | rewrite Hs; cbn [rbind app]]
       end | ]);
    destruct (in_argv "line" argv); cbn [rbind app];
    destruct (in_argv "orbit" argv); cbn [rbind app];
    eexists; (split; [reflexivity |]); all_valid.
Qed.

(** * Further properties *)

(** ** Vector algebra *)

Ltac vec_eq :=
  repeat match goal with v : vec |- _ => destruct v end;
  unfold vadd, vsub, vscale, vdiv, vneg, vzero; simpl;
  f_equal; try lra; try (field; lra).

Lemma vadd_comm (a b : vec) : vadd a b = vadd b a.
Proof. vec_eq. Qed.

Lemma vadd_assoc (a b c : vec) : vadd a (vadd b c) = vadd (vadd a b) c.
Proof. vec_eq. Qed.

Lemma vadd_zero_l (a : vec) : vadd vzero a = a.
Proof. vec_eq. Qed.

Lemma vadd_zero_r (a : vec) : vadd a vzero = a.
Proof. vec_eq. Qed.

Lemma vadd_vneg (a : vec) : vadd a (vneg a) = vzero.
Proof. vec_eq. Qed.

Lemma vsub_vneg (a b : vec) : vsub a b = vneg (vsub b a).
Proof. vec_eq. Qed.

Lemma vscale_vneg (a : vec) (k : R) : vscale (vneg a) k = vneg (vscale a k).
Proof. vec_eq. Qed.

Lemma vscale_zero (a : vec) : vscale a 0 = vzero.
Proof. vec_eq. Qed.

Lemma vdiv_zero (k : R) : vdiv vzero k = vzero.
Proof. unfold vdiv, vzero. simpl. f_equal; unfold Rdiv; apply Rmult_0_l. Qed.

Lemma fold_vadd_acc (fs : list vec) (a : vec) :
  fold_left vadd fs a = vadd a (vsum fs).
Proof.
  unfold vsum. revert a. induction fs as [| f fs IH]; intros a; simpl.
  - symmetry. apply vadd_zero_r.
  - rewrite IH. rewrite (IH (vadd vzero f)).
    rewrite vadd_zero_l. symmetry. apply vadd_assoc.
Qed.

Lemma vsum_cons (f : vec) (fs : list vec) : vsum (f :: fs) = vadd f (vsum fs).
Proof.
  unfold vsum at 1. simpl. rewrite fold_vadd_acc, vadd_zero_l. reflexivity.
Qed.

Lemma vsum_nil : vsum [] = vzero.
Proof. reflexivity. Qed.

Lemma vsum_map_vadd {A : Type} (f g : A -> vec) (l : list A) :
  vsum (map (fun x => vadd (f x) (g x)) l) =
  vadd (vsum (map f l)) (vsum (map g l)).
Proof.
  induction l as [| x l IH]; simpl.
  - rewrite vsum_nil. symmetry. apply vadd_zero_l.
  - rewrite !vsum_cons, IH.
    generalize (f x) (g x) (vsum (map f l)) (vsum (map g l)). intros. vec_eq.
Qed.

Lemma vsum_map_vneg {A : Type} (f : A -> vec) (l : list A) :
  vsum (map (fun x => vneg (f x)) l) = vneg (vsum (map f l)).
Proof.
  induction l as [| x l IH]; simpl.
  - rewrite vsum_nil. vec_eq.
  - rewrite !vsum_cons, IH.
    generalize (f x) (vsum (map f l)). intros. vec_eq.
Qed.

(** ** distance *)

Lemma distance_sym (p q : vec) : distance p q = distance q p.
Proof. rewrite !distance_sqrt. f_equal. ring. Qed.

Lemma distance_same (p : vec) : distance p p = 0.
Proof.
  rewrite distance_sqrt.
  replace ((vx p - vx p) ^ 2 + (vy p - vy p) ^ 2 + (vz p - vz p) ^ 2)
    with 0 by ring.
  apply sqrt_0.
Qed.

Lemma distance_zero_inv (p q : vec) : distance p q = 0 -> p = q.
Proof.
  rewrite distance_sqrt. intros H.
  apply sqrt_eq_0 in H; [| apply sum_squares_nonneg].
  destruct p as [a b c], q as [a' b' c']. simpl vx in H. simpl vy in H.
  simpl vz in H.
  pose proof (pow2_ge_0 (a - a')). pose proof (pow2_ge_0 (b - b')).
  pose proof (pow2_ge_0 (c - c')).
  assert (Ha : Rsqr (a - a') = 0) by (unfold Rsqr; lra).
  assert (Hb : Rsqr (b - b') = 0) by (unfold Rsqr; lra).
  assert (Hc : Rsqr (c - c') = 0) by (unfold Rsqr; lra).
  apply Rsqr_0_uniq in Ha, Hb, Hc.
  f_equal; lra.
Qed.

Lemma distance_vneg (v : vec) : distance (vneg v) vzero = distance v vzero.
Proof. rewrite !distance_sqrt. f_equal. unfold vneg, vzero. simpl. ring. Qed.

(** X1. [distance] is never negative, does not depend on the order of its
    arguments, and is zero exactly between a point and itself. *)
Theorem distance_metric (p q : vec) :
  0 <= distance p q /\
  distance p q = distance q p /\
  (distance p q = 0 <-> p = q).
Proof.
  split; [apply distance_nonneg |]. split; [apply distance_sym |].
  split; [apply distance_zero_inv | intros ->; apply distance_same].
Qed.

(** ** normalize *)

Lemma truthy_opp (x : R) : truthy (- x) = truthy x.
Proof.
  unfold truthy.
  destruct (Req_dec_T (- x) 0), (Req_dec_T x 0); try reflexivity; exfalso; lra.
Qed.

Lemma all_vneg (v : vec) : all_ (vneg v) = all_ v.
Proof. unfold all_, vneg. simpl. rewrite !truthy_opp. reflexivity. Qed.

Lemma all_true_inv (v : vec) :
  all_ v = true -> vx v <> 0 /\ vy v <> 0 /\ vz v <> 0.
Proof.
  unfold all_. intros H.
  apply andb_true_iff in H. destruct H as [H Hz].
  apply andb_true_iff in H. destruct H as [Hx Hy].
  repeat split; apply truthy_true_iff; assumption.
Qed.

Lemma all_false_inv (v : vec) :
  all_ v = false -> vx v = 0 \/ vy v = 0 \/ vz v = 0.
Proof.
  unfold all_. intros H.
  apply andb_false_iff in H. destruct H as [H | H].
  - apply andb_false_iff in H. destruct H as [H | H];
      apply truthy_false_iff in H; auto.
  - apply truthy_false_iff in H. auto.
Qed.

Lemma normalize_cases (v : vec) :
  (all_ v = false /\ normalize v = v) \/
  (all_ v = true /\ normalize v = vdiv v (distance v vzero) /\
   distance (normalize v) vzero = 1).
Proof.
  destruct (all_ v) eqn:E.
  - right. apply all_true_inv in E. destruct E as (Hx & Hy & Hz).
    split; [reflexivity |]. apply normalize_no_zero; assumption.
  - left. split; [reflexivity |]. apply normalize_some_zero.
    apply all_false_inv. exact E.
Qed.

Lemma normalize_vneg (v : vec) : normalize (vneg v) = vneg (normalize v).
Proof.
  destruct (normalize_cases v) as [[E H] | (E & H & _)];
    destruct (normalize_cases (vneg v)) as [[E' H'] | (E' & H' & _)];
    rewrite all_vneg in E'; try congruence.
  rewrite H, H', distance_vneg.
  generalize (distance v vzero). intros d. destruct v. unfold vdiv, vneg. simpl.
  f_equal; unfold Rdiv; ring.
Qed.

(** X2. When no entry of [v] is zero, [normalize] divides [v] by its length
    and the result has length 1. *)
Theorem normalize_unit_length (v : vec) :
  vx v <> 0 -> vy v <> 0 -> vz v <> 0 ->
  normalize v = vdiv v (distance v vzero) /\
  distance (normalize v) vzero = 1.
Proof. apply normalize_no_zero. Qed.

Lemma normalize_unit_length_witness :
  normalize (Vec 1 2 2) = vdiv (Vec 1 2 2) (distance (Vec 1 2 2) vzero) /\
  distance (normalize (Vec 1 2 2)) vzero = 1.
Proof. apply (normalize_unit_length (Vec 1 2 2)); simpl; lra. Defined.

(** X3. Normalizing twice is the same as normalizing once. *)
Theorem normalize_idempotent (v : vec) :
  normalize (normalize v) = normalize v.
Proof.
  destruct (normalize_cases v) as [[E H] | (E & H & Hd)].
  - rewrite H. exact H.
  - destruct (normalize_cases (normalize v)) as [[E' H'] | (E' & H' & _)];
      [exact H' |].
    rewrite H', Hd. generalize (normalize v). intros u. destruct u.
    unfold vdiv. simpl. f_equal; field.
Qed.

(** ** Comparison of bodies *)

Lemma eq_gravpoint_inv (a b : gravpoint) :
  __eq__ a b = true ->
  all_ (pos a) = all_ (pos b) /\ all_ (vel a) = all_ (vel b) /\ mass a = mass b.
Proof.
  unfold __eq__. intros H.
  destruct (Bool.eqb (all_ (pos a)) (all_ (pos b))) eqn:E1; [| discriminate].
  destruct (Bool.eqb (all_ (vel a)) (all_ (vel b))) eqn:E2; [| discriminate].
  destruct (Req_bool (mass a) (mass b)) eqn:E3; [| discriminate].
  apply Bool.eqb_prop in E1, E2. apply Req_bool_true_iff in E3. auto.
Qed.

(** X4. [==] on bodies is an equivalence relation, and it does not tell
    positions apart: a body compares equal to itself put anywhere else, as
    long as the new position has a zero entry exactly when the old one has. *)
Theorem eq_gravpoint_equivalence :
  (forall a, __eq__ a a = true) /\
  (forall a b, __eq__ a b = __eq__ b a) /\
  (forall a b c, __eq__ a b = true -> __eq__ b c = true -> __eq__ a c = true) /\
  (forall a p, all_ p = all_ (pos a) -> __eq__ (set_pos a p) a = true).
Proof.
  split; [exact eq_refl_gravpoint |]. split; [| split].
  - intros a b.
    destruct (__eq__ a b) eqn:E.
    + apply eq_gravpoint_inv in E. destruct E as (E1 & E2 & E3).
      symmetry. apply eq_gravpoint_intro; congruence.
    + destruct (__eq__ b a) eqn:E'; [| reflexivity].
      apply eq_gravpoint_inv in E'. destruct E' as (E1 & E2 & E3).
      rewrite eq_gravpoint_intro in E; congruence.
  - intros a b c Hab Hbc.
    apply eq_gravpoint_inv in Hab, Hbc.
    destruct Hab as (? & ? & ?), Hbc as (? & ? & ?).
    apply eq_gravpoint_intro; congruence.
  - intros a p H. apply eq_gravpoint_intro; simpl; congruence.
Qed.

(** ** Forces between two bodies *)

Lemma pair_force_sym (a b : gravpoint) : pair_force a b = pair_force b a.
Proof.
  unfold pair_force. rewrite (distance_sym (pos b) (pos a)).
  replace (mass b * 1000 * mass a * 1000) with (mass a * 1000 * mass b * 1000)
    by ring.
  reflexivity.
Qed.

Lemma par_force_opposite (a b : gravpoint) (f : vec) :
  par_force a b = Normal f -> par_force b a = Normal (vneg f).
Proof.
  unfold par_force. rewrite (pair_force_sym b a).
  destruct (pair_force a b) as [k | e]; simpl; [| discriminate].
  intros H. injection H as <-.
  rewrite (vsub_vneg (pos a) (pos b)), normalize_vneg, vscale_vneg.
  reflexivity.
Qed.

(** X5. The scalar force of a pair is the same in both directions, the same
    exception included, and the two vectors of a pair are opposite: what [a]
    gets from [b] is minus what [b] gets from [a]. Two bodies at the same
    place exert no force on each other. *)
Theorem pair_forces_opposite (a b : gravpoint) :
  pair_force a b = pair_force b a /\
  (forall f, par_force a b = Normal f -> par_force b a = Normal (vneg f)) /\
  (pos a = pos b -> par_force a b = Normal vzero).
Proof.
  split; [apply pair_force_sym |]. split; [apply par_force_opposite |].
  intros E. unfold par_force, pair_force. rewrite E, distance_same.
  rewrite Req_bool_refl. simpl. rewrite vscale_zero. reflexivity.
Qed.

(** X6. Between two bodies of positive mass that are not at the same place
    the scalar force is always computed. Beyond distance 5 it is positive, an
    attraction. Within distance 5 the logarithm takes over, and the force is
    negative, a repulsion, exactly when raw is below d^2. *)
Theorem short_range_force_sign (a b : gravpoint) :
  positive_mass a -> positive_mass b ->
  0 < distance (pos a) (pos b) ->
  exists f,
    pair_force a b = Normal f /\
    (5 < distance (pos a) (pos b) -> 0 < f) /\
    (distance (pos a) (pos b) <= 5 ->
     (f < 0 <->
      GRAVEC * (mass a * 1000 * mass b * 1000) < distance (pos a) (pos b) ^ 2)).
Proof.
  unfold positive_mass. intros Ha Hb Hd0.
  assert (Hraw : 0 < GRAVEC * (mass a * 1000 * mass b * 1000)).
  { rewrite GRAVEC_G. apply Rmult_lt_0_compat; [exact G_pos |].
    repeat apply Rmult_lt_0_compat; lra. }
  unfold pair_force.
  set (raw := GRAVEC * (mass a * 1000 * mass b * 1000)) in *.
  set (d := distance (pos a) (pos b)) in *.
  assert (Hd2 : 0 < d ^ 2) by (apply pow_lt; lra).
  assert (Hq : 0 < raw / d ^ 2) by (apply Rdiv_lt_0_compat; assumption).
  assert (Hq1 : raw / d ^ 2 < 1 <-> raw < d ^ 2).
  { split; intros H.
    - apply (Rmult_lt_compat_r (d ^ 2)) in H; [| exact Hd2].
      unfold Rdiv in H. rewrite Rmult_assoc, Rinv_l in H by lra. lra.
    - apply (Rmult_lt_reg_r (d ^ 2)); [exact Hd2 |].
      unfold Rdiv. rewrite Rmult_assoc, Rinv_l by lra. lra. }
  unfold Req_bool, Rle_bool.
  destruct (Req_dec_T d 0); [lra |].
  destruct (Rle_dec d 5) as [H5 | H5].
  - rewrite log_pos by exact Hq. eexists. split; [reflexivity |].
    split; [intros; lra |]. intros _. rewrite <- Hq1, <- ln_1. split; intros H.
    + apply ln_lt_inv; [exact Hq | lra | exact H].
    + apply ln_increasing; [exact Hq | exact H].
  - eexists. split; [reflexivity |]. split; [intros _; exact Hq | intros; lra].
Qed.

Lemma short_range_force_sign_witness :
  exists f,
    pair_force body_1 body_2 = Normal f /\
    (5 < distance (pos body_1) (pos body_2) -> 0 < f) /\
    (distance (pos body_1) (pos body_2) <= 5 ->
     (f < 0 <->
      GRAVEC * (mass body_1 * 1000 * mass body_2 * 1000)
        < distance (pos body_1) (pos body_2) ^ 2)).
Proof.
  apply (short_range_force_sign body_1 body_2).
  - unfold positive_mass. simpl. lra.
  - unfold positive_mass. simpl. lra.
  - apply (Rlt_le_trans _ 2); [lra |].
    simpl pos. apply distance_ge; simpl; lra.
Defined.

(** ** What the force pass touches *)

Lemma update_each_map {A : Type} (f : gravpoint -> A) (s : list gravpoint)
      (fs : list vec) :
  (forall g v, f (update g v) = f g) ->
  map f (update_each s fs) = map f s.
Proof.
  intros Hf. revert fs. induction s as [| g s IH]; intros fs;
    [destruct fs; reflexivity |].
  destruct fs as [| v fs]; [reflexivity |]. simpl. rewrite Hf, IH. reflexivity.
Qed.

Lemma gravity_frame (s : list gravpoint) :
  length (snd (gravity s)) = length s /\
  map pos (snd (gravity s)) = map pos s /\
  map mass (snd (gravity s)) = map mass s /\
  map radius (snd (gravity s)) = map radius s /\
  map imov (snd (gravity s)) = map imov s /\
  map color (snd (gravity s)) = map color s /\
  (forall e, fst (gravity s) = Raise e -> snd (gravity s) = s).
Proof.
  unfold gravity. destruct (forces s) as [fs | e]; simpl.
  - split; [apply update_each_length |].
    repeat split; try (apply update_each_map; reflexivity).
    intros e H. discriminate.
  - repeat split.
Qed.

(** X7. Whatever it returns, [gravity] leaves the number of bodies and every
    body's position, mass, radius, flag and colour as they are: only
    velocities change. When it raises, not even a velocity has changed. *)
Theorem gravity_changes_velocities_only (s : list gravpoint) :
  length (snd (gravity s)) = length s /\
  map pos (snd (gravity s)) = map pos s /\
  map mass (snd (gravity s)) = map mass s /\
  map radius (snd (gravity s)) = map radius s /\
  map imov (snd (gravity s)) = map imov s /\
  map color (snd (gravity s)) = map color s /\
  (forall e, fst (gravity s) = Raise e -> snd (gravity s) = s).
Proof. exact (gravity_frame s). Qed.

(** ** Momentum in the force pass *)

Lemma magnitude_sym (ma mb : R) (pa pb : vec) :
  magnitude ma mb pa pb = magnitude mb ma pb pa.
Proof.
  unfold magnitude. rewrite (distance_sym pb pa).
  replace (G * (mb * 1000) * (ma * 1000)) with (G * (ma * 1000) * (mb * 1000))
    by ring.
  reflexivity.
Qed.

Lemma contribution_opposite (a b : gravpoint) :
  contribution a b = vneg (contribution b a).
Proof.
  unfold contribution.
  rewrite (vsub_vneg (pos b) (pos a)), normalize_vneg, vscale_vneg.
  rewrite (magnitude_sym (mass a) (mass b)). reflexivity.
Qed.

Lemma contribution_self (a : gravpoint) : contribution a a = vzero.
Proof.
  unfold contribution, magnitude. rewrite distance_same.
  destruct (Req_dec_T 0 0) as [_ | H]; [apply vscale_zero | contradiction].
Qed.

Lemma In_combine_seq_inv (l : list gravpoint) (a j : nat) (g : gravpoint) :
  In (j, g) (combine (seq a (length l)) l) ->
  (a <= j)%nat /\ nth_error l (j - a) = Some g.
Proof.
  revert a. induction l as [| x l IH]; intros a H; [contradiction |].
  simpl in H. destruct H as [H | H].
  - injection H as <- <-. split; [lia |]. rewrite Nat.sub_diag. reflexivity.
  - apply IH in H. destruct H as [Hle H]. split; [lia |].
    replace (j - a)%nat with (S (j - S a)) by lia. exact H.
Qed.

Lemma In_enumerate_inv (s : list gravpoint) (j : nat) (g : gravpoint) :
  In (j, g) (enumerate s) -> nth_error s j = Some g.
Proof.
  intros H. apply In_combine_seq_inv in H. destruct H as [_ H].
  rewrite Nat.sub_0_r in H. exact H.
Qed.

Lemma map_snd_enumerate {A : Type} (f : gravpoint -> A) (s : list gravpoint) :
  map (fun q => f (snd q)) (enumerate s) = map f s.
Proof.
  unfold enumerate. generalize 0%nat.
  induction s as [| x s IH]; intros a; [reflexivity |].
  simpl. f_equal. apply IH.
Qed.

Lemma vsum_skip_zero (i : nat) (f : gravpoint -> vec)
      (ps : list (nat * gravpoint)) :
  (forall q, In q ps -> fst q = i -> f (snd q) = vzero) ->
  vsum (map (fun q => f (snd q)) (filter (fun q => negb (i =? fst q)%nat) ps)) =
  vsum (map (fun q => f (snd q)) ps).
Proof.
  induction ps as [| q ps IH]; intros H; [reflexivity |].
  simpl. destruct (i =? fst q)%nat eqn:E; simpl.
  - apply Nat.eqb_eq in E. rewrite vsum_cons.
    rewrite (H q (or_introl eq_refl) (eq_sym E)), vadd_zero_l.
    apply IH. intros q' Hq'. apply H. right. exact Hq'.
  - rewrite !vsum_cons. f_equal.
    apply IH. intros q' Hq'. apply H. right. exact Hq'.
Qed.

(** The net force on a body of the list is the sum of the contributions of
    all entries, its own being zero. *)
Lemma net_force_sum (s : list gravpoint) (i : nat) (g : gravpoint) :
  Forall positive_mass s ->
  In (i, g) (enumerate s) ->
  net_force s i g = Normal (vsum (map (contribution g) s)).
Proof.
  intros HF Hin. unfold net_force.
  assert (Hg : positive_mass g).
  { eapply nth_error_Forall; [exact HF | apply In_enumerate_inv; exact Hin]. }
  rewrite par_forces_contributions;
    [| exact Hg | apply Forall_enumerate; exact HF].
  simpl. f_equal. fold (vsum (map (fun p => contribution g (snd p))
    (filter (fun p => negb (i =? fst p)%nat) (enumerate s)))).
  rewrite vsum_skip_zero.
  - rewrite map_snd_enumerate. reflexivity.
  - intros [j g'] Hq Hj. simpl in *. subst j.
    apply In_enumerate_inv in Hin, Hq.
    rewrite Hin in Hq. injection Hq as <-. apply contribution_self.
Qed.

Lemma forces_from_sum (s : list gravpoint) (ps : list (nat * gravpoint)) :
  Forall positive_mass s ->
  (forall p, In p ps -> In p (enumerate s)) ->
  forces_from s ps =
  Normal (map (fun p => vsum (map (contribution (snd p)) s)) ps).
Proof.
  intros HF. induction ps as [| [i g] ps IH]; intros Hin; [reflexivity |].
  simpl. rewrite net_force_sum; [| exact HF | apply Hin; left; reflexivity].
  simpl. rewrite IH; [reflexivity |].
  intros p Hp. apply Hin. right. exact Hp.
Qed.

Lemma forces_sum (s : list gravpoint) :
  Forall positive_mass s ->
  forces s = Normal (map (fun g => vsum (map (contribution g) s)) s).
Proof.
  intros HF. unfold forces. rewrite forces_from_sum; [| exact HF | auto].
  f_equal. apply (map_snd_enumerate (fun g => vsum (map (contribution g) s))).
Qed.

(** A double sum of pairwise opposite vectors vanishes. *)
Lemma double_sum_opposite (c : gravpoint -> gravpoint -> vec) (l : list gravpoint) :
  (forall a b, c a b = vneg (c b a)) ->
  (forall a, c a a = vzero) ->
  vsum (map (fun a => vsum (map (c a) l)) l) = vzero.
Proof.
  intros Hopp Hself. induction l as [| x l IH]; [reflexivity |].
  simpl. rewrite vsum_cons, vsum_cons, Hself, vadd_zero_l.
  rewrite (map_ext (fun a => vsum (c a x :: map (c a) l))
                   (fun a => vadd (c a x) (vsum (map (c a) l))))
    by (intros a; apply vsum_cons).
  rewrite (vsum_map_vadd (fun a => c a x) (fun a => vsum (map (c a) l))).
  rewrite IH, vadd_zero_r.
  rewrite (map_ext (fun a => c a x) (fun a => vneg (c x a)))
    by (intros a; apply Hopp).
  rewrite vsum_map_vneg. apply vadd_vneg.
Qed.

Lemma momentum_update (g : gravpoint) (f : vec) :
  mass g <> 0 -> momentum (update g f) = vadd (momentum g) f.
Proof.
  intros H. unfold momentum, update. simpl.
  destruct (vel g), f. unfold vscale, vadd, vdiv. simpl.
  f_equal; field; exact H.
Qed.

Lemma total_momentum_update_each (s : list gravpoint) (fs : list vec) :
  Forall positive_mass s -> length fs = length s ->
  total_momentum (update_each s fs) = vadd (total_momentum s) (vsum fs).
Proof.
  unfold total_momentum. revert fs.
  induction s as [| g s IH]; intros fs HF Hlen.
  - destruct fs; [| discriminate]. simpl. rewrite vsum_nil.
    symmetry. apply vadd_zero_l.
  - destruct fs as [| f fs]; [discriminate |].
    inversion HF as [| ? ? Hg HF']; subst. simpl.
    rewrite !vsum_cons, IH by (try assumption; simpl in Hlen; lia).
    rewrite momentum_update by (unfold positive_mass in Hg; lra).
    generalize (momentum g) (vsum (map momentum s)) (vsum fs). intros. vec_eq.
Qed.

(** X8. On bodies of positive mass the force pass returns without an
    exception and leaves the total momentum of the collection as it was: the
    forces of every pair cancel. *)
Theorem gravity_conserves_momentum (s : list gravpoint) :
  Forall positive_mass s ->
  exists fs s',
    forces s = Normal fs /\
    vsum fs = vzero /\
    gravity s = (Normal tt, s') /\
    total_momentum s' = total_momentum s.
Proof.
  intros HF. pose proof (forces_sum s HF) as Hfs.
  exists (map (fun g => vsum (map (contribution g) s)) s).
  exists (update_each s (map (fun g => vsum (map (contribution g) s)) s)).
  assert (Hz : vsum (map (fun g => vsum (map (contribution g) s)) s) = vzero).
  { apply double_sum_opposite;
      [apply contribution_opposite | apply contribution_self]. }
  split; [exact Hfs |]. split; [exact Hz |]. split.
  - unfold gravity. rewrite Hfs. reflexivity.
  - rewrite total_momentum_update_each; [| exact HF | apply length_map].
    rewrite Hz. apply vadd_zero_r.
Qed.

Lemma gravity_conserves_momentum_witness :
  exists fs s',
    forces [body_1; body_2] = Normal fs /\
    vsum fs = vzero /\
    gravity [body_1; body_2] = (Normal tt, s') /\
    total_momentum s' = total_momentum [body_1; body_2].
Proof.
  apply (gravity_conserves_momentum [body_1; body_2]).
  repeat constructor; unfold positive_mass; simpl; lra.
Defined.

(** ** The merge pass on lists without overlap *)

Lemma for_range_fixed (body : nat -> M unit) (r : list nat) (s : list gravpoint) :
  (forall i, In i r -> body i s = (Normal tt, s)) ->
  for_range r body s = (Normal tt, s).
Proof.
  induction r as [| i r IH]; intros H; [reflexivity |].
  rewrite for_range_cons, (H i (or_introl eq_refl)). cbv beta iota.
  apply IH. intros k Hk. apply H. right. exact Hk.
Qed.

Lemma guarded_pair_no_overlap (i j : nat) (s : list gravpoint) :
  (i < j)%nat -> no_overlap s ->
  try_except_IndexError (merge_pair i j) s = (Normal tt, s).
Proof.
  intros Hlt Hno.
  destruct (nth_error s i) as [gi |] eqn:Hi;
    [| apply merge_pair_out_of_range; auto].
  destruct (nth_error s j) as [gj |] eqn:Hj;
    [| apply merge_pair_out_of_range; auto].
  unfold try_except_IndexError.
  rewrite (merge_pair_far i j s gi gj Hi Hj); [reflexivity |].
  apply Rnot_lt_le. exact (Hno i j gi gj Hlt Hi Hj).
Qed.

Lemma merge_detect_no_overlap (s : list gravpoint) :
  no_overlap s -> merge_detect s = (Normal tt, s).
Proof.
  intros Hno. rewrite merge_detect_rows. apply for_range_fixed.
  intros i _. rewrite merge_row_pairs. apply for_range_fixed.
  intros j Hj. apply in_seq in Hj.
  apply guarded_pair_no_overlap; [lia | exact Hno].
Qed.

(** X9. When no two bodies of the list overlap, the merge pass returns the
    list as it was, whatever the masses are. *)
Theorem merge_detect_without_overlap (s : list gravpoint) :
  no_overlap s -> merge_detect s = (Normal tt, s).
Proof. exact (merge_detect_no_overlap s). Qed.

Lemma no_overlap_pair (a b : gravpoint) : ~ overlap a b -> no_overlap [a; b].
Proof.
  intros H i j gi gj Hlt Hi Hj.
  destruct i as [| i].
  - destruct j as [| [| j]]; [lia | | destruct j; discriminate].
    simpl in Hi, Hj. injection Hi as <-. injection Hj as <-. exact H.
  - destruct i as [| i]; [| destruct i; discriminate].
    destruct j as [| [| j]]; [lia | lia | destruct j; discriminate].
Qed.

Lemma no_overlap_body_1_2 : no_overlap [body_1; body_2].
Proof.
  apply no_overlap_pair. unfold overlap. apply Rle_not_lt.
  simpl radius. simpl pos. apply distance_ge; simpl; lra.
Qed.

Lemma merge_detect_without_overlap_witness :
  merge_detect [body_1; body_2] = (Normal tt, [body_1; body_2]).
Proof.
  apply (merge_detect_without_overlap [body_1; body_2]).
  exact no_overlap_body_1_2.
Defined.

(** ** The merge pass on two bodies *)

Lemma merge_detect_two_overlapping (a b g : gravpoint) :
  overlap a b -> __add__ a b = Normal g ->
  merge_detect [a; b] = (Normal tt, [g]).
Proof.
  intros Hov Hadd.
  assert (Hrm : exists t, remove_first b [a; b] = Some [t]).
  { simpl. destruct (__eq__ a b); [eexists; reflexivity |].
    rewrite eq_refl_gravpoint. eexists. reflexivity. }
  destruct Hrm as [t Hrm].
  assert (H01 : try_except_IndexError (merge_pair 0 1) [a; b] = (Normal tt, [g])).
  { unfold try_except_IndexError.
    rewrite (merge_pair_near 0 1 [a; b] [t] a b g);
      try reflexivity; try assumption; lia. }
  rewrite merge_detect_rows. change (range 0 (length [a; b])) with [0; 1]%nat.
  rewrite for_range_cons, merge_row_pairs.
  change (range (0 + 1) (length [a; b])) with [1]%nat.
  rewrite for_range_cons, H01. cbv beta iota.
  rewrite for_range_nil.
  rewrite for_range_cons, merge_row_pairs. reflexivity.
Qed.

(** X10. Two overlapping bodies whose merge the constructor accepts are
    replaced by that merge alone. *)
Theorem merge_detect_two_bodies (a b g : gravpoint) :
  overlap a b -> __add__ a b = Normal g ->
  merge_detect [a; b] = (Normal tt, [g]).
Proof. exact (merge_detect_two_overlapping a b g). Qed.

Lemma overlap_light_near : overlap light_body near_body.
Proof.
  unfold overlap. simpl radius. simpl pos. apply distance_lt; simpl; lra.
Qed.

Lemma add_light_near :
  __add__ light_body near_body =
  Normal (Gravpoint (50 + 100) (vadd (Vec 0 0 0) (vdiv (Vec 1 0 0) 2))
            (vdiv (vadd (vscale (Vec 0 0 0) 50) (vscale (Vec 0 0 0) 100))
                  (50 + 100))
            (py_int (Rpower (50 + 100) (1 / 3))) false
            (Rgb ((255 + 255) / 2) ((255 + 255) / 2) ((255 + 255) / 2))).
Proof. unfold __add__. simpl. apply init_pos. lra. Qed.

Lemma merge_detect_two_bodies_witness :
  merge_detect [light_body; near_body] =
  (Normal tt,
   [Gravpoint (50 + 100) (vadd (Vec 0 0 0) (vdiv (Vec 1 0 0) 2))
      (vdiv (vadd (vscale (Vec 0 0 0) 50) (vscale (Vec 0 0 0) 100)) (50 + 100))
      (py_int (Rpower (50 + 100) (1 / 3))) false
      (Rgb ((255 + 255) / 2) ((255 + 255) / 2) ((255 + 255) / 2))]).
Proof.
  apply (merge_detect_two_bodies light_body near_body).
  - exact overlap_light_near.
  - exact add_light_near.
Defined.

(** ** Total mass in one merge *)

Lemma remove_first_is_nth (s : list gravpoint) (j : nat) (gj : gravpoint) :
  nth_error s j = Some gj ->
  (forall k gk, (k < j)%nat -> nth_error s k = Some gk -> __eq__ gk gj = false) ->
  remove_first gj s = Some (remove_nth j s).
Proof.
  revert j. induction s as [| x s IH]; intros j Hj Hfirst;
    [destruct j; discriminate |].
  destruct j as [| j]; simpl in *.
  - injection Hj as ->. rewrite eq_refl_gravpoint. reflexivity.
  - rewrite (Hfirst 0%nat x) by (try lia; reflexivity).
    rewrite (IH j Hj); [reflexivity |].
    intros k gk Hk Hgk. apply (Hfirst (S k) gk); [lia | exact Hgk].
Qed.

Lemma total_mass_cons (g : gravpoint) (s : list gravpoint) :
  total_mass (g :: s) = mass g + total_mass s.
Proof. reflexivity. Qed.

Lemma total_mass_remove_nth (s : list gravpoint) (j : nat) (gj : gravpoint) :
  nth_error s j = Some gj ->
  total_mass (remove_nth j s) = total_mass s - mass gj.
Proof.
  revert j. induction s as [| x s IH]; intros j Hj; [destruct j; discriminate |].
  destruct j as [| j]; simpl in Hj.
  - injection Hj as ->. simpl remove_nth. rewrite total_mass_cons. lra.
  - simpl remove_nth. rewrite !total_mass_cons, (IH j Hj). lra.
Qed.

Lemma total_mass_list_assign (s : list gravpoint) (i : nat) (gi g : gravpoint) :
  nth_error s i = Some gi ->
  total_mass (list_assign s i g) = total_mass s - mass gi + mass g.
Proof.
  revert i. induction s as [| x s IH]; intros i Hi; [destruct i; discriminate |].
  destruct i as [| i]; simpl in Hi.
  - injection Hi as ->. simpl list_assign. rewrite !total_mass_cons. lra.
  - simpl list_assign. rewrite !total_mass_cons, (IH i Hi). lra.
Qed.

Lemma nth_error_remove_nth_before (s : list gravpoint) (i j : nat) :
  (i < j)%nat -> nth_error (remove_nth j s) i = nth_error s i.
Proof.
  revert i j. induction s as [| x s IH]; intros i j Hlt;
    [destruct j, i; reflexivity |].
  destruct j as [| j]; [lia |]. destruct i as [| i]; [reflexivity |].
  simpl. apply IH. lia.
Qed.

Lemma remove_nth_length (s : list gravpoint) (j : nat) (gj : gravpoint) :
  nth_error s j = Some gj -> length s = S (length (remove_nth j s)).
Proof.
  revert j. induction s as [| x s IH]; intros j Hj; [destruct j; discriminate |].
  destruct j as [| j]; simpl in *; [reflexivity |].
  f_equal. apply (IH j Hj).
Qed.

(** X11. A merge of the overlapping bodies at indices [i < j] keeps the total
    mass of the list, provided no entry before index [j] compares equal to
    the body at [j]: then [list.remove] drops that very body, and the merge,
    whose mass is the sum of the two, takes the place of the body at [i]. *)
Theorem merge_pair_conserves_mass (s : list gravpoint) (i j : nat)
        (gi gj : gravpoint) :
  (i < j)%nat ->
  nth_error s i = Some gi ->
  nth_error s j = Some gj ->
  overlap gi gj ->
  positive_mass gi -> positive_mass gj ->
  (forall k gk, (k < j)%nat -> nth_error s k = Some gk -> __eq__ gk gj = false) ->
  exists new,
    __add__ gi gj = Normal new /\
    merge_pair i j s = (Normal tt, list_assign (remove_nth j s) i new) /\
    total_mass (list_assign (remove_nth j s) i new) = total_mass s /\
    S (length (list_assign (remove_nth j s) i new)) = length s.
Proof.
  intros Hlt Hi Hj Hov Pi Pj Hfirst.
  destruct (add_positive gi gj Pi Pj) as (new & Hadd & _).
  exists new. split; [exact Hadd |].
  pose proof (remove_first_is_nth s j gj Hj Hfirst) as Hrm.
  split; [apply (merge_pair_near i j s _ gi gj new); assumption |].
  split.
  - rewrite (total_mass_list_assign _ i gi).
    + rewrite (total_mass_remove_nth s j gj Hj).
      apply add_fields in Hadd. destruct Hadd as (Hm & _). lra.
    + rewrite nth_error_remove_nth_before by exact Hlt. exact Hi.
  - rewrite list_assign_length. symmetry. apply (remove_nth_length s j gj Hj).
Qed.

Lemma merge_pair_conserves_mass_witness :
  exists new,
    __add__ light_body near_body = Normal new /\
    merge_pair 0 1 [light_body; near_body] =
      (Normal tt, list_assign (remove_nth 1 [light_body; near_body]) 0 new) /\
    total_mass (list_assign (remove_nth 1 [light_body; near_body]) 0 new) =
      total_mass [light_body; near_body] /\
    S (length (list_assign (remove_nth 1 [light_body; near_body]) 0 new)) =
      length [light_body; near_body].
Proof.
  apply (merge_pair_conserves_mass [light_body; near_body] 0 1
                                   light_body near_body).
  - lia.
  - reflexivity.
  - reflexivity.
  - exact overlap_light_near.
  - unfold positive_mass. simpl. lra.
  - unfold positive_mass. simpl. lra.
  - intros k gk Hk Hgk. destruct k as [| k]; [| lia].
    simpl in Hgk. injection Hgk as <-.
    apply eq_gravpoint_mass. simpl. lra.
Defined.

(** ** The length of the list over the merge pass *)

Lemma try_except_state (body : M unit) (s : list gravpoint) :
  snd (try_except_IndexError body s) = snd (body s).
Proof.
  unfold try_except_IndexError. destruct (body s) as [[u | []] s']; reflexivity.
Qed.

Lemma merge_pair_lengths (i j : nat) (s : list gravpoint) :
  (i < j)%nat ->
  (length (snd (merge_pair i j s)) <= length s)%nat /\
  (1 <= length s -> 1 <= length (snd (merge_pair i j s)))%nat.
Proof.
  intros Hlt. unfold merge_pair, bind, getitem.
  destruct (nth_error s i) as [gi |] eqn:Hi; [| simpl; lia].
  destruct (nth_error s j) as [gj |] eqn:Hj; [| simpl; lia].
  reads Hi Hj.
  destruct (Rlt_bool (distance (pos gi) (pos gj)) (IZR (radius gi + radius gj)));
    [| simpl; lia].
  reads Hi Hj. unfold lift.
  destruct (__add__ gi gj) as [new | e]; [| simpl; lia].
  cbv beta iota.
  replace (j <? i)%nat with false by (symmetry; apply Nat.ltb_ge; lia).
  reads Hi Hj. unfold remove.
  destruct (remove_first gj s) as [t |] eqn:Hrm; [| simpl; lia].
  apply remove_first_length in Hrm.
  assert (j < length s)%nat by (apply nth_error_Some; congruence).
  unfold setitem. destruct (i <? length t)%nat; simpl;
    rewrite ?list_assign_length; lia.
Qed.

Lemma for_range_state (P : list gravpoint -> Prop) (body : nat -> M unit)
      (r : list nat) :
  (forall i s, In i r -> P s -> P (snd (body i s))) ->
  forall s, P s -> P (snd (for_range r body s)).
Proof.
  induction r as [| i r IH]; intros Hbody s Hs; [exact Hs |].
  rewrite for_range_cons.
  pose proof (Hbody i s (or_introl eq_refl) Hs) as H1.
  destruct (body i s) as [[u | e] s1]; simpl in H1.
  - apply IH; [| exact H1]. intros k t Hk. apply Hbody. right. exact Hk.
  - exact H1.
Qed.

Lemma merge_detect_lengths (s : list gravpoint) :
  (length (snd (merge_detect s)) <= length s)%nat /\
  (s <> [] -> snd (merge_detect s) <> []).
Proof.
  assert (H : (length (snd (merge_detect s)) <= length s)%nat /\
              (1 <= length s -> 1 <= length (snd (merge_detect s)))%nat).
  { rewrite merge_detect_rows.
    apply (for_range_state
             (fun t => (length t <= length s)%nat /\
                       (1 <= length s -> 1 <= length t)%nat));
      [| split; lia].
    intros i t _ Ht. rewrite merge_row_pairs.
    apply (for_range_state
             (fun t => (length t <= length s)%nat /\
                       (1 <= length s -> 1 <= length t)%nat));
      [| exact Ht].
    intros j u Hj [Hu1 Hu2]. apply in_seq in Hj.
    rewrite try_except_state.
    destruct (merge_pair_lengths i j u) as [H1 H2]; [lia |].
    split; [lia |]. intros Hs. apply H2. apply Hu2. exact Hs. }
  destruct H as [H1 H2]. split; [exact H1 |].
  intros Hne E. rewrite E in H2. simpl in H2.
  destruct s; [contradiction | simpl in H2; lia].
Qed.

(** X12. Whether it returns or raises, the merge pass never makes the list
    longer, and it never empties a list that had a body in it. *)
Theorem merge_detect_length (s : list gravpoint) :
  (length (snd (merge_detect s)) <= length s)%nat /\
  (s <> [] -> snd (merge_detect s) <> []).
Proof. exact (merge_detect_lengths s). Qed.

(** ** Whole ticks *)

Lemma momentum_move (g : gravpoint) : momentum (move g) = momentum g.
Proof. unfold momentum, move. destruct (negb (imov g)); reflexivity. Qed.

Lemma total_momentum_move_each (s : list gravpoint) :
  total_momentum (map move s) = total_momentum s.
Proof.
  unfold total_momentum. rewrite map_map. f_equal.
  apply map_ext. exact momentum_move.
Qed.

Lemma total_mass_of_masses (s t : list gravpoint) :
  map mass s = map mass t -> total_mass s = total_mass t.
Proof. unfold total_mass. intros ->. reflexivity. Qed.

Lemma add_momentum (a b g : gravpoint) :
  positive_mass a -> positive_mass b -> __add__ a b = Normal g ->
  mass g = mass a + mass b /\ momentum g = vadd (momentum a) (momentum b).
Proof.
  unfold positive_mass. intros Ha Hb H. unfold __add__ in H.
  apply init_fields in H. destruct H as (Hm & _ & Hv & _).
  split; [exact Hm |]. unfold momentum. rewrite Hm, Hv.
  destruct (vel a), (vel b). unfold vdiv, vadd, vscale. simpl.
  f_equal; field; lra.
Qed.

(** The part of a tick after the merge pass, on bodies of positive mass. *)
Lemma tick_after_merge (s s1 : list gravpoint) :
  merge_detect s = (Normal tt, s1) ->
  Forall positive_mass s1 ->
  updateall s =
    (Normal tt,
     map move (update_each s1 (map (fun g => vsum (map (contribution g) s1)) s1))) /\
  length (map move (update_each s1
            (map (fun g => vsum (map (contribution g) s1)) s1))) = length s1 /\
  total_mass (map move (update_each s1
            (map (fun g => vsum (map (contribution g) s1)) s1))) = total_mass s1 /\
  total_momentum (map move (update_each s1
            (map (fun g => vsum (map (contribution g) s1)) s1))) =
    total_momentum s1.
Proof.
  intros Hm HF. pose proof (forces_sum s1 HF) as Hfs.
  set (fs := map (fun g => vsum (map (contribution g) s1)) s1) in *.
  split; [| split; [| split]].
  - unfold updateall, bind. rewrite Hm. unfold gravity. rewrite Hfs. reflexivity.
  - rewrite length_map. apply update_each_length.
  - apply total_mass_of_masses. rewrite move_each_mass. apply update_each_mass.
  - rewrite total_momentum_move_each.
    rewrite total_momentum_update_each; [| exact HF | apply length_map].
    unfold fs. rewrite double_sum_opposite;
      [apply vadd_zero_r | apply contribution_opposite | apply contribution_self].
Qed.

(** X13. A tick on bodies of positive mass none of which overlap runs to its
    end, keeps every body in its place in the list, and conserves the total
    mass and the total momentum of the collection. *)
Theorem tick_without_overlap (s : list gravpoint) :
  Forall positive_mass s -> no_overlap s ->
  exists s',
    updateall s = (Normal tt, s') /\
    length s' = length s /\
    map mass s' = map mass s /\
    total_mass s' = total_mass s /\
    total_momentum s' = total_momentum s.
Proof.
  intros HF Hno.
  destruct (tick_after_merge s s (merge_detect_no_overlap s Hno) HF)
    as (Hup & Hlen & Hmass & Hmom).
  eexists. split; [exact Hup |]. split; [exact Hlen |].
  split; [| split; [exact Hmass | exact Hmom]].
  rewrite move_each_mass. apply update_each_mass.
Qed.

Lemma positive_body_1_2 : Forall positive_mass [body_1; body_2].
Proof. repeat constructor; unfold positive_mass; simpl; lra. Qed.

Lemma tick_without_overlap_witness :
  exists s',
    updateall [body_1; body_2] = (Normal tt, s') /\
    length s' = length [body_1; body_2] /\
    map mass s' = map mass [body_1; body_2] /\
    total_mass s' = total_mass [body_1; body_2] /\
    total_momentum s' = total_momentum [body_1; body_2].
Proof.
  apply (tick_without_overlap [body_1; body_2]).
  - exact positive_body_1_2.
  - exact no_overlap_body_1_2.
Defined.

(** X14. In such a tick the body at index [i] receives the sum of the
    contributions of all the others as its force, its velocity grows by
    force / mass, and, unless it is immovable, its position advances by the
    new velocity. *)
Theorem tick_integrates_net_force (s : list gravpoint) (i : nat) (g : gravpoint) :
  Forall positive_mass s -> no_overlap s ->
  nth_error s i = Some g ->
  exists s' g',
    updateall s = (Normal tt, s') /\
    nth_error s' i = Some g' /\
    vel g' = vadd (vel g) (vdiv (vsum (map (contribution g) s)) (mass g)) /\
    pos g' = (if imov g then pos g else vadd (pos g) (vel g')) /\
    mass g' = mass g /\ radius g' = radius g /\
    imov g' = imov g /\ color g' = color g.
Proof.
  intros HF Hno Hi.
  destruct (tick_after_merge s s (merge_detect_no_overlap s Hno) HF)
    as (Hup & _).
  set (f := vsum (map (contribution g) s)).
  exists (map move (update_each s (map (fun g => vsum (map (contribution g) s)) s))).
  exists (integrate g f).
  split; [exact Hup |]. split.
  - apply integrator_passes_pointwise; [exact Hi |].
    rewrite nth_error_map, Hi. reflexivity.
  - unfold integrate, move, update. simpl.
    destruct (imov g) eqn:E; simpl; rewrite ?E; repeat split.
Qed.

Lemma tick_integrates_net_force_witness :
  exists s' g',
    updateall [body_1; body_2] = (Normal tt, s') /\
    nth_error s' 1 = Some g' /\
    vel g' = vadd (vel body_2)
                  (vdiv (vsum (map (contribution body_2) [body_1; body_2]))
                        (mass body_2)) /\
    pos g' = (if imov body_2 then pos body_2 else vadd (pos body_2) (vel g')) /\
    mass g' = mass body_2 /\ radius g' = radius body_2 /\
    imov g' = imov body_2 /\ color g' = color body_2.
Proof.
  apply (tick_integrates_net_force [body_1; body_2] 1 body_2).
  - exact positive_body_1_2.
  - exact no_overlap_body_1_2.
  - reflexivity.
Defined.

(** X15. A world of two bodies of positive mass conserves its total mass and
    its total momentum over a tick, whether the two merge or not. *)
Theorem two_body_tick_conserves (a b : gravpoint) :
  positive_mass a -> positive_mass b ->
  exists s',
    updateall [a; b] = (Normal tt, s') /\
    (1 <= length s' <= 2)%nat /\
    total_mass s' = mass a + mass b /\
    total_momentum s' = vadd (momentum a) (momentum b).
Proof.
  intros Ha Hb.
  assert (Hm0 : total_mass [a; b] = mass a + mass b)
    by (unfold total_mass; simpl; lra).
  assert (Hp0 : total_momentum [a; b] = vadd (momentum a) (momentum b)).
  { unfold total_momentum. simpl. rewrite !vsum_cons, vsum_nil, vadd_zero_r.
    reflexivity. }
  destruct (Rlt_dec (distance (pos a) (pos b)) (IZR (radius a + radius b)))
    as [Hov | Hno].
  - destruct (add_positive a b Ha Hb) as (g & Hadd & Hg).
    destruct (add_momentum a b g Ha Hb Hadd) as [Hgm Hgp].
    destruct (tick_after_merge [a; b] [g]
                (merge_detect_two_overlapping a b g Hov Hadd))
      as (Hup & Hlen & Hmass & Hmom); [repeat constructor; exact Hg |].
    eexists. split; [exact Hup |]. split; [rewrite Hlen; simpl; lia |].
    split.
    + rewrite Hmass. unfold total_mass. simpl. lra.
    + rewrite Hmom. unfold total_momentum. simpl.
      rewrite vsum_cons, vsum_nil, vadd_zero_r. exact Hgp.
  - destruct (tick_after_merge [a; b] [a; b]
                (merge_detect_no_overlap [a; b] (no_overlap_pair a b Hno)))
      as (Hup & Hlen & Hmass & Hmom); [repeat constructor; assumption |].
    eexists. split; [exact Hup |]. split; [rewrite Hlen; simpl; lia |].
    split; [rewrite Hmass; exact Hm0 | rewrite Hmom; exact Hp0].
Qed.

Lemma two_body_tick_conserves_witness :
  exists s',
    updateall [light_body; near_body] = (Normal tt, s') /\
    (1 <= length s' <= 2)%nat /\
    total_mass s' = mass light_body + mass near_body /\
    total_momentum s' = vadd (momentum light_body) (momentum near_body).
Proof.
  apply (two_body_tick_conserves light_body near_body);
    unfold positive_mass; simpl; lra.
Defined.

(** ** A body on its own *)

Lemma update_zero_force (g : gravpoint) : update g vzero = g.
Proof.
  unfold update, set_vel. rewrite vdiv_zero, vadd_zero_r.
  destruct g. reflexivity.
Qed.

Lemma updateall_single (g : gravpoint) : updateall [g] = (Normal tt, [move g]).
Proof.
  unfold updateall, bind.
  assert (Hm : merge_detect [g] = (Normal tt, [g])).
  { rewrite merge_detect_rows. change (range 0 (length [g])) with [0%nat].
    rewrite for_range_cons, merge_row_pairs. reflexivity. }
  rewrite Hm. unfold gravity.
  assert (Hf : forces [g] = Normal [vzero]) by reflexivity.
  rewrite Hf. simpl update_each. rewrite update_zero_force. reflexivity.
Qed.

Lemma ticks_single (n : nat) (g : gravpoint) :
  ticks n [g] = (Normal tt, [moves n g]).
Proof.
  revert g. induction n as [| n IH]; intros g; [reflexivity |].
  simpl. unfold bind. rewrite updateall_single. apply IH.
Qed.

Lemma moves_spec (n : nat) (g : gravpoint) :
  moves n g =
  (if imov g then g else set_pos g (vadd (pos g) (vscale (vel g) (INR n)))).
Proof.
  revert g. induction n as [| n IH]; intros g.
  - simpl. destruct (imov g); [reflexivity |].
    destruct g as [m p v r i c]. unfold set_pos. simpl. f_equal.
    destruct p, v. unfold vadd, vscale. simpl. f_equal; lra.
  - simpl moves. rewrite IH. unfold move. destruct (imov g) eqn:E; cbn [negb].
    + rewrite E. reflexivity.
    + unfold set_pos. cbn [imov pos vel mass radius color]. rewrite E.
      f_equal. rewrite S_INR.
      destruct (pos g), (vel g). unfold vadd, vscale. cbn [vx vy vz].
      f_equal; lra.
Qed.

(** X16. A body of nonzero mass that is alone in the collection feels no
    force: [n] ticks run to the end, its velocity never changes, and it
    travels in a straight line, ending at pos + n * vel, or stays where it
    is when it is immovable. (With a zero mass the source divides the zero
    force by zero, which the reals do not model.) *)
Theorem lone_body_uniform_motion (n : nat) (g : gravpoint) :
  mass g <> 0 ->
  ticks n [g] =
  (Normal tt,
   [if imov g then g
    else set_pos g (vadd (pos g) (vscale (vel g) (INR n)))]).
Proof. intros _. rewrite ticks_single, moves_spec. reflexivity. Qed.

Lemma lone_body_uniform_motion_witness :
  ticks 3 [body_1] =
  (Normal tt,
   [if imov body_1 then body_1
    else set_pos body_1 (vadd (pos body_1) (vscale (vel body_1) (INR 3)))]).
Proof. apply (lone_body_uniform_motion 3 body_1). simpl. lra. Defined.

(** ** Merging in the other order *)

(** X17. For bodies of positive mass, [a + b] and [b + a] agree in mass,
    velocity, radius, flag and colour. When both bodies are movable the two
    positions agree only if the bodies were at the same place. *)
Theorem add_order (a b : gravpoint) :
  positive_mass a -> positive_mass b ->
  exists g g',
    __add__ a b = Normal g /\ __add__ b a = Normal g' /\
    mass g = mass g' /\ vel g = vel g' /\ radius g = radius g' /\
    imov g = imov g' /\ color g = color g' /\
    (imov a = false -> imov b = false -> (pos g = pos g' <-> pos a = pos b)).
Proof.
  unfold positive_mass. intros Ha Hb. unfold __add__.
  rewrite !init_pos by lra. eexists. eexists.
  split; [reflexivity |]. split; [reflexivity |]. simpl.
  split; [lra |]. split.
  { destruct (vel a), (vel b). unfold vdiv, vadd, vscale. simpl.
    f_equal; field; lra. }
  split; [rewrite (Rplus_comm (mass a)); reflexivity |].
  split; [apply orb_comm |]. split.
  { destruct (color a), (color b). simpl. f_equal; lra. }
  intros Ea Eb. rewrite Ea, Eb. simpl.
  destruct (pos a) as [x y z], (pos b) as [x' y' z'].
  unfold vadd, vdiv. simpl. split; intros H; injection H as H1 H2 H3;
    f_equal; lra.
Qed.

Lemma add_order_witness :
  exists g g',
    __add__ body_1 body_2 = Normal g /\ __add__ body_2 body_1 = Normal g' /\
    mass g = mass g' /\ vel g = vel g' /\ radius g = radius g' /\
    imov g = imov g' /\ color g = color g' /\
    (imov body_1 = false -> imov body_2 = false ->
     (pos g = pos g' <-> pos body_1 = pos body_2)).
Proof.
  apply (add_order body_1 body_2); unfold positive_mass; simpl; lra.
Defined.

(** ** The scenarios together *)

Lemma circle_points_length (r : list nat) (gpoints gpoints' : list gravpoint) :
  circle_points gpoints r = Normal gpoints' ->
  length gpoints' = (length gpoints + length r)%nat.
Proof.
  revert gpoints. induction r as [| i r IH]; intros gpoints H; simpl in H.
  - injection H as <-. simpl. lia.
  - destruct (circle_point i) as [g | e]; simpl in H; [| discriminate].
    apply IH in H. rewrite length_app in H. simpl in *. lia.
Qed.

(** X18. The scenario names add up: every name found on the command line
    brings in its bodies, 5 for square, 37 for circle, 6 for line and 2 for
    orbit, and the module builds them all without an exception. *)
Theorem scenarios_add_up (argv : list string) :
  exists gpoints,
    module_gpoints argv = Normal gpoints /\
    length gpoints =
      (scenario_size "square" 5 argv + scenario_size "circle" 37 argv +
       scenario_size "line" 6 argv + scenario_size "orbit" 2 argv)%nat.
Proof.
  unfold module_gpoints, scenario_size.
  repeat match goal with
  | |- context [__init__ ?p ?m ?v ?b ?c] =>
      let g := fresh "g" in
      let Hg := fresh "Hg" in
      let Hv := fresh "Hv" in
      destruct (init_valid p m v b c) as (g & Hg & Hv & _); [lra |];
      rewrite !Hg; clear Hg
  end.
  cbn [rbind app].
  destruct (in_argv "square" argv); cbn [rbind app];
    (destruct (in_argv "circle" argv); cbn [rbind app];
     [ match goal with
       | |- context [circle_points ?l ?r] =>
           let s := fresh "s" in
           let Hs := fresh "Hs" in
           let Hl := fresh "Hl" in
           destruct (circle_points_valid r l) as (s & Hs & _);
           [all_valid |
            pose proof (circle_points_length _ _ _ Hs) as Hl;
            rewrite Hs; cbn [rbind app]]
       end | ]);
    destruct (in_argv "line" argv); cbn [rbind app];
    destruct (in_argv "orbit" argv); cbn [rbind app];
    eexists; (split; [reflexivity |]);
    rewrite ?length_app; rewrite ?Hl; reflexivity.
Qed.

(** X19. Whatever the command line is, the check at the start of [main]
    passes: the diagnostic is never printed, nothing exits, and the frame
    loop is entered with the bodies the module built. *)
Theorem main_check_never_fails (argv : list string) :
  exists gpoints,
    module_gpoints argv = Normal gpoints /\
    program argv = MainLoop gpoints [].
Proof.
  destruct (module_gpoints_valid argv) as (gpoints & E & _).
  exists gpoints. split; [exact E |]. unfold program. rewrite E. reflexivity.
Qed.

(** ** The number of bodies over time *)

Lemma updateall_length (s : list gravpoint) :
  (length (snd (updateall s)) <= length s)%nat /\
  (1 <= length s -> 1 <= length (snd (updateall s)))%nat.
Proof.
  destruct (merge_detect_lengths s) as [H1 H2].
  assert (H3 : (1 <= length s -> 1 <= length (snd (merge_detect s)))%nat).
  { intros Hs. destruct (snd (merge_detect s)) eqn:E; [| simpl; lia].
    exfalso. apply H2; [| reflexivity]. destruct s; [simpl in Hs; lia | discriminate]. }
  unfold updateall, bind.
  destruct (merge_detect s) as [[u | e] s1]; simpl in *; [| lia].
  destruct (gravity_frame s1) as (Hl & _).
  destruct (gravity s1) as [[u' | e] s2]; simpl in *; [| lia].
  unfold move_each. simpl. rewrite length_map. lia.
Qed.

Lemma ticks_lengths (n : nat) (s : list gravpoint) :
  (length (snd (ticks n s)) <= length s)%nat /\
  (s <> [] -> snd (ticks n s) <> []).
Proof.
  assert (H : (length (snd (ticks n s)) <= length s)%nat /\
              (1 <= length s -> 1 <= length (snd (ticks n s)))%nat).
  { revert s. induction n as [| n IH]; intros s; [simpl; lia |].
    simpl. unfold bind. destruct (updateall_length s) as [H1 H2].
    destruct (updateall s) as [[u | e] s1]; simpl in *; [| lia].
    destruct (IH s1) as [H3 H4]. lia. }
  destruct H as [H1 H2]. split; [exact H1 |].
  intros Hne E. rewrite E in H2. simpl in H2.
  destruct s; [contradiction | simpl in H2; lia].
Qed.

(** X20. However many ticks run, and whether or not one of them raises, the
    collection never gains a body and never loses its last one. *)
Theorem world_never_grows_nor_empties (n : nat) (s : list gravpoint) :
  (length (snd (ticks n s)) <= length s)%nat /\
  (s <> [] -> snd (ticks n s) <> []).
Proof. exact (ticks_lengths n s). Qed.

(** ** Forces along an axis *)

(** X21. When two bodies share a coordinate, the difference of their
    positions has a zero entry and is not normalized: the vector of the pair
    is the whole difference times the scalar force, so its length carries
    the distance as an extra factor. *)
Theorem par_force_shared_coordinate (a b : gravpoint) (k : R) :
  vx (pos a) = vx (pos b) \/ vy (pos a) = vy (pos b) \/ vz (pos a) = vz (pos b) ->
  pair_force a b = Normal k ->
  par_force a b = Normal (vscale (vsub (pos b) (pos a)) k) /\
  distance (vscale (vsub (pos b) (pos a)) k) vzero =
    Rabs k * distance (pos a) (pos b).
Proof.
  intros Hc Hk. split.
  - unfold par_force. rewrite Hk. simpl. rewrite normalize_some_zero; [reflexivity |].
    unfold vsub. simpl. destruct Hc as [H | [H | H]]; rewrite H; lra.
  - rewrite !distance_sqrt. unfold vscale, vsub, vzero. simpl.
    rewrite <- sqrt_Rsqr_abs, <- sqrt_mult_alt by apply Rle_0_sqr.
    f_equal. unfold Rsqr. ring.
Qed.

Lemma par_force_shared_coordinate_witness :
  par_force body_1 body_2 =
    Normal (vscale (vsub (pos body_2) (pos body_1))
                   (magnitude (mass body_1) (mass body_2)
                              (pos body_1) (pos body_2))) /\
  distance (vscale (vsub (pos body_2) (pos body_1))
                   (magnitude (mass body_1) (mass body_2)
                              (pos body_1) (pos body_2))) vzero =
    Rabs (magnitude (mass body_1) (mass body_2) (pos body_1) (pos body_2)) *
    distance (pos body_1) (pos body_2).
Proof.
  apply (par_force_shared_coordinate body_1 body_2).
  - right. left. reflexivity.
  - apply pair_force_magnitude; unfold positive_mass; simpl; lra.
Defined.

(** ** Drawing *)

Lemma draw_loop_exact (call : nat -> result circle) (f : nat -> circle)
      (r : list nat) (surface : list circle) :
  (forall i, In i r -> call i = Normal (f i)) ->
  draw_loop call r surface = (Normal tt, surface ++ map f r).
Proof.
  revert surface. induction r as [| i r IH]; intros surface H; simpl.
  - rewrite app_nil_r. reflexivity.
  - rewrite (H i (or_introl eq_refl)). rewrite IH.
    + rewrite <- app_assoc. reflexivity.
    + intros k Hk. apply H. right. exact Hk.
Qed.

Lemma draw_loop_raise (call : nat -> result circle) (f : nat -> circle)
      (r1 r2 : list nat) (j : nat) (e : exn) (surface : list circle) :
  (forall i, In i r1 -> call i = Normal (f i)) ->
  call j = Raise e ->
  draw_loop call (r1 ++ j :: r2) surface = (Raise e, surface ++ map f r1).
Proof.
  revert surface. induction r1 as [| i r1 IH]; intros surface H Hj; simpl.
  - rewrite Hj, app_nil_r. reflexivity.
  - rewrite (H i (or_introl eq_refl)). rewrite IH.
    + rewrite <- app_assoc. reflexivity.
    + intros k Hk. apply H. right. exact Hk.
    + exact Hj.
Qed.

Lemma index_map {A B : Type} (f : A -> B) (l : list A) (i : nat) (x : A) :
  nth_error l i = Some x -> index (map f l) i = Normal (f x).
Proof. intros H. unfold index. rewrite nth_error_map, H. reflexivity. Qed.

Lemma map_seq_nth_error {B : Type} (h : gravpoint -> B) (d : B)
      (l : list gravpoint) :
  map (fun i => match nth_error l i with Some g => h g | None => d end)
      (seq 0 (length l)) = map h l.
Proof.
  induction l as [| x l IH]; [reflexivity |].
  simpl. f_equal. rewrite <- seq_shift, map_map. exact IH.
Qed.

(** X22. In the drawing of a frame no index is out of range: whatever the
    bodies are, pygame is handed exactly one circle for every body, in the
    order of the list, with the body's own colour and radius, after what the
    surface held. *)
Theorem draw_frame_one_circle_per_body (ORIGINX ORIGINY : R)
        (gpoints : list gravpoint) (surface : list circle) :
  draw_frame ORIGINX ORIGINY gpoints surface =
  (Normal tt,
   surface ++
   map (fun g => draw_3dcircle ORIGINX ORIGINY (RgbColour (color g)) (pos g)
                               (radius g)) gpoints).
Proof.
  unfold draw_frame, draw_points.
  set (h := fun g => draw_3dcircle ORIGINX ORIGINY (RgbColour (color g)) (pos g)
                                   (radius g)).
  rewrite <- (map_seq_nth_error h (Circle (IntColour 0) (0, 0)%Z 0) gpoints).
  unfold range. rewrite length_map, Nat.sub_0_r.
  apply draw_loop_exact. intros i Hi. apply in_seq in Hi.
  destruct (nth_error gpoints i) as [g |] eqn:E.
  - rewrite (index_map color gpoints i g E), (index_map pos gpoints i g E),
      (index_map radius gpoints i g E). reflexivity.
  - apply nth_error_None in E. lia.
Qed.

(** X23. Called with fewer radii than points (and colours enough),
    [draw_points] draws a circle for every radius it has and then raises
    IndexError; the circles drawn so far stay on the surface. *)
Theorem draw_points_short_radii (ORIGINX ORIGINY : R) (colour : list rgb)
        (points : list vec) (radi : list Z) (surface : list circle) :
  (length radi < length points)%nat ->
  (length points <= length colour)%nat ->
  exists drawn,
    draw_points ORIGINX ORIGINY (ColourList colour) points radi surface =
      (Raise IndexError, surface ++ drawn) /\
    length drawn = length radi.
Proof.
  intros Hr Hc. unfold draw_points, range. rewrite Nat.sub_0_r.
  replace (length points)
    with (length radi + S (length points - S (length radi)))%nat by lia.
  rewrite seq_app. simpl seq.
  set (d := Circle (IntColour 0) (0, 0)%Z 0).
  set (f := fun i =>
              match nth_error colour i, nth_error points i, nth_error radi i with
              | Some c, Some p, Some r =>
                  draw_3dcircle ORIGINX ORIGINY (RgbColour c) p r
              | _, _, _ => d
              end).
  exists (map f (seq 0 (length radi))). split; [| rewrite length_map; apply length_seq].
  apply draw_loop_raise.
  - intros i Hi. apply in_seq in Hi. unfold index, f.
    destruct (nth_error colour i) eqn:E1;
      [| apply nth_error_None in E1; lia].
    destruct (nth_error points i) eqn:E2;
      [| apply nth_error_None in E2; lia].
    destruct (nth_error radi i) eqn:E3;
      [| apply nth_error_None in E3; lia].
    reflexivity.
  - unfold index.
    destruct (nth_error colour (length radi)) eqn:E1;
      [| apply nth_error_None in E1; lia].
    destruct (nth_error points (length radi)) eqn:E2;
      [| apply nth_error_None in E2; lia].
    assert (E3 : nth_error radi (length radi) = None)
      by (apply nth_error_None; lia).
    rewrite E3. reflexivity.
Qed.

Lemma draw_points_short_radii_witness :
  exists drawn,
    draw_points 320 320 (ColourList [white; white]) [Vec 0 0 0; Vec 1 1 1]
                [4%Z] [] =
      (Raise IndexError, [] ++ drawn) /\
    length drawn = length [4%Z].
Proof.
  apply (draw_points_short_radii 320 320 [white; white]
                                 [Vec 0 0 0; Vec 1 1 1] [4%Z] []);
    simpl; lia.
Defined.

(** ** The logarithm outside its domain *)

(** X24. Two bodies within distance 5 of each other, not at the same place,
    whose masses do not have a positive product: the logarithm is taken of a
    number that is not positive, and the force pass stops with a ValueError,
    no velocity changed. If the two do not overlap, the whole tick stops
    there and leaves the list as it was. *)
Theorem force_pass_domain_error (a b : gravpoint) :
  0 < distance (pos a) (pos b) <= 5 ->
  mass a * mass b <= 0 ->
  pair_force a b = Raise ValueError /\
  gravity [a; b] = (Raise ValueError, [a; b]) /\
  (~ overlap a b -> updateall [a; b] = (Raise ValueError, [a; b])).
Proof.
  intros [Hd0 Hd5] Hm.
  assert (Hpf : pair_force a b = Raise ValueError).
  { unfold pair_force, Req_bool, Rle_bool.
    destruct (Req_dec_T (distance (pos a) (pos b)) 0); [lra |].
    destruct (Rle_dec (distance (pos a) (pos b)) 5); [| lra].
    apply log_nonpos.
    assert (Hd2 : 0 < distance (pos a) (pos b) ^ 2) by (apply pow_lt; lra).
    assert (Hraw : GRAVEC * (mass a * 1000 * mass b * 1000) <= 0).
    { rewrite GRAVEC_G. pose proof G_pos.
      replace (G * (mass a * 1000 * mass b * 1000))
        with (- (G * 1000000 * - (mass a * mass b))) by ring.
      assert (0 <= G * 1000000 * - (mass a * mass b));
        [apply Rmult_le_pos; lra | lra]. }
    unfold Rdiv.
    replace (GRAVEC * (mass a * 1000 * mass b * 1000) *
             / distance (pos a) (pos b) ^ 2)
      with (- (- (GRAVEC * (mass a * 1000 * mass b * 1000)) *
               / distance (pos a) (pos b) ^ 2)) by ring.
    assert (0 <= - (GRAVEC * (mass a * 1000 * mass b * 1000)) *
                 / distance (pos a) (pos b) ^ 2);
      [apply Rmult_le_pos; [lra | left; apply Rinv_0_lt_compat; exact Hd2] | lra]. }
  assert (Hg : gravity [a; b] = (Raise ValueError, [a; b])).
  { unfold gravity, forces, enumerate. simpl. unfold net_force. simpl.
    unfold par_force. rewrite Hpf. reflexivity. }
  split; [exact Hpf |]. split; [exact Hg |].
  intros Hno. unfold updateall, bind.
  rewrite (merge_detect_no_overlap [a; b] (no_overlap_pair a b Hno)), Hg.
  reflexivity.
Qed.

Lemma force_pass_domain_error_witness :
  pair_force (Gravpoint 0 (Vec 0 0 0) (Vec 0 0 0) 0 false white)
             (Gravpoint 1 (Vec 3 0 0) (Vec 0 0 0) 1 false white)
    = Raise ValueError /\
  gravity [Gravpoint 0 (Vec 0 0 0) (Vec 0 0 0) 0 false white;
           Gravpoint 1 (Vec 3 0 0) (Vec 0 0 0) 1 false white]
    = (Raise ValueError,
       [Gravpoint 0 (Vec 0 0 0) (Vec 0 0 0) 0 false white;
        Gravpoint 1 (Vec 3 0 0) (Vec 0 0 0) 1 false white]) /\
  (~ overlap (Gravpoint 0 (Vec 0 0 0) (Vec 0 0 0) 0 false white)
             (Gravpoint 1 (Vec 3 0 0) (Vec 0 0 0) 1 false white) ->
   updateall [Gravpoint 0 (Vec 0 0 0) (Vec 0 0 0) 0 false white;
              Gravpoint 1 (Vec 3 0 0) (Vec 0 0 0) 1 false white]
     = (Raise ValueError,
        [Gravpoint 0 (Vec 0 0 0) (Vec 0 0 0) 0 false white;
         Gravpoint 1 (Vec 3 0 0) (Vec 0 0 0) 1 false white])).
Proof.
  apply (force_pass_domain_error
           (Gravpoint 0 (Vec 0 0 0) (Vec 0 0 0) 0 false white)
           (Gravpoint 1 (Vec 3 0 0) (Vec 0 0 0) 1 false white)).
  - assert (D : distance (Vec 0 0 0) (Vec 3 0 0) = 3).
    { rewrite distance_sqrt. simpl.
      replace ((0 - 3) * ((0 - 3) * 1) + (0 - 0) * ((0 - 0) * 1) +
               (0 - 0) * ((0 - 0) * 1)) with (3 * 3) by ring.
      apply sqrt_square. lra. }
    simpl pos. rewrite D. lra.
  - simpl. lra.
Defined.

(** ** The radius as a function of the mass *)

Lemma Int_part_le (x y : R) : x <= y -> (Int_part x <= Int_part y)%Z.
Proof.
  intros H. destruct (base_Int_part x) as [Hx _].
  destruct (base_Int_part y) as [_ Hy].
  destruct (Z_le_gt_dec (Int_part x) (Int_part y)) as [Hle | Hgt]; [exact Hle |].
  exfalso. assert (H1 : (Int_part y + 1 <= Int_part x)%Z) by lia.
  apply IZR_le in H1. rewrite plus_IZR in H1. lra.
Qed.

Lemma Int_part_zero : Int_part 0 = 0%Z.
Proof. symmetry. apply Int_part_spec. simpl. lra. Qed.

Lemma floor_cbrt_nonneg (m : R) : (0 <= floor_cbrt m)%Z.
Proof.
  unfold floor_cbrt. rewrite <- Int_part_zero at 1.
  apply Int_part_le. left. apply Rpower_pos.
Qed.

Lemma floor_cbrt_le (m m' : R) :
  0 < m -> m <= m' -> (floor_cbrt m <= floor_cbrt m')%Z.
Proof.
  intros Hm Hle. unfold floor_cbrt. apply Int_part_le.
  apply Rle_Rpower_l; lra.
Qed.

Lemma floor_cbrt_zero_iff (m : R) : 0 < m -> (floor_cbrt m = 0%Z <-> m < 1).
Proof.
  intros Hm. split.
  - intros H. unfold floor_cbrt in H.
    destruct (base_Int_part (Rpower m (1 / 3))) as [_ Hc]. rewrite H in Hc.
    pose proof (Rpower_pos m (1 / 3)) as Hp.
    pose proof (cube_root_cubed m Hm) as Hcube.
    set (c := Rpower m (1 / 3)) in *.
    assert (Hc1 : c < 1) by lra.
    assert (Hc2 : c * c < 1) by nra.
    assert (Hc3 : c * (c * c) < 1) by nra.
    simpl in Hcube. lra.
  - intros H. apply floor_cbrt_bounds; [lia | simpl; lra | exact Hm].
Qed.

(** X25. For positive masses the constructor's radius is never negative, is
    zero exactly for masses below 1, and does not decrease when the mass
    grows. *)
Theorem radius_of_mass (m m' : R) :
  0 < m -> m <= m' ->
  exists r r',
    int_cube_root m = Normal r /\ int_cube_root m' = Normal r' /\
    (0 <= r <= r')%Z /\ (r = 0%Z <-> m < 1).
Proof.
  intros Hm Hle. exists (floor_cbrt m), (floor_cbrt m').
  rewrite !int_cube_root_floor by lra.
  split; [reflexivity |]. split; [reflexivity |]. split.
  - split; [apply floor_cbrt_nonneg | apply floor_cbrt_le; assumption].
  - apply floor_cbrt_zero_iff. exact Hm.
Qed.

Lemma radius_of_mass_witness :
  exists r r',
    int_cube_root 50 = Normal r /\ int_cube_root 100 = Normal r' /\
    (0 <= r <= r')%Z /\ (r = 0%Z <-> 50 < 1).
Proof. apply (radius_of_mass 50 100); lra. Defined.

(** X26. The merge of two valid bodies is at least as large as either of
    them. *)
Theorem merge_radius_grows (a b : gravpoint) :
  valid_body a -> valid_body b ->
  exists g,
    __add__ a b = Normal g /\
    (radius a <= radius g)%Z /\ (radius b <= radius g)%Z.
Proof.
  intros Va Vb. destruct (add_valid a b Va Vb) as (g & Hg & [_ Hr]).
  exists g. split; [exact Hg |].
  apply add_fields in Hg. destruct Hg as (Hm & _).
  destruct Va as [Pa Ra], Vb as [Pb Rb]. unfold positive_mass in *.
  unfold radius_ok in *. rewrite Ra, Rb, Hr, Hm.
  split; apply floor_cbrt_le; lra.
Qed.

Lemma merge_radius_grows_witness :
  exists g,
    __add__ body_1 body_2 = Normal g /\
    (radius body_1 <= radius g)%Z /\ (radius body_2 <= radius g)%Z.
Proof.
  apply (merge_radius_grows body_1 body_2);
    [exact valid_body_1 | exact valid_body_2].
Defined.

(** X27. Valid bodies of mass below 1 have radius 0 and so never overlap:
    the merge pass leaves a list of such bodies as it is, however close they
    are. *)
Theorem light_bodies_never_merge (s : list gravpoint) :
  Forall (fun g => valid_body g /\ mass g < 1) s ->
  merge_detect s = (Normal tt, s).
Proof.
  intros HF. apply merge_detect_no_overlap.
  intros i j gi gj _ Hi Hj.
  assert (Ri : radius gi = 0%Z).
  { destruct (proj1 (Forall_forall _ s) HF gi (nth_error_In _ _ Hi))
      as [[Pi Ri] Li].
    rewrite Ri. apply floor_cbrt_zero_iff; assumption. }
  assert (Rj : radius gj = 0%Z).
  { destruct (proj1 (Forall_forall _ s) HF gj (nth_error_In _ _ Hj))
      as [[Pj Rj] Lj].
    rewrite Rj. apply floor_cbrt_zero_iff; assumption. }
  unfold overlap. rewrite Ri, Rj. simpl.
  apply Rle_not_lt. apply distance_nonneg.
Qed.

Lemma light_bodies_never_merge_witness :
  merge_detect [Gravpoint 0.5 (Vec 0 0 0) (Vec 0 0 0) 0 false white;
                Gravpoint 0.5 (Vec 0.1 0 0) (Vec 0 0 0) 0 false white] =
  (Normal tt,
   [Gravpoint 0.5 (Vec 0 0 0) (Vec 0 0 0) 0 false white;
    Gravpoint 0.5 (Vec 0.1 0 0) (Vec 0 0 0) 0 false white]).
Proof.
  apply (light_bodies_never_merge
           [Gravpoint 0.5 (Vec 0 0 0) (Vec 0 0 0) 0 false white;
            Gravpoint 0.5 (Vec 0.1 0 0) (Vec 0 0 0) 0 false white]).
  repeat constructor; unfold positive_mass, radius_ok; simpl; try lra;
    symmetry; apply floor_cbrt_bounds; try lia; simpl; lra.
Defined.

(** ** The program as a whole *)

Lemma positive_of_masses (s s' : list gravpoint) :
  map mass s' = map mass s -> Forall positive_mass s -> Forall positive_mass s'.
Proof.
  revert s. induction s' as [| g' s' IH]; intros s E HF; [constructor |].
  destruct s as [| g s]; [discriminate |]. simpl in E. injection E as Eg Es.
  inversion HF as [| ? ? Hg HF']; subst.
  constructor; [unfold positive_mass in *; rewrite Eg; exact Hg |].
  apply (IH s Es HF').
Qed.

Lemma updateall_positive (s : list gravpoint) :
  Forall positive_mass s ->
  exists s', updateall s = (Normal tt, s') /\ Forall positive_mass s'.
Proof.
  intros HF.
  destruct (merge_detect_safe positive_mass add_positive s HF)
    as (s1 & Hm & HF1 & _).
  destruct (updateall_after_merge s s1 Hm HF1) as (s2 & Hup & Hmass & _).
  exists s2. split; [exact Hup |].
  apply (positive_of_masses s1 s2 Hmass HF1).
Qed.

Lemma ticks_positive (n : nat) (s : list gravpoint) :
  Forall positive_mass s ->
  exists s', ticks n s = (Normal tt, s') /\ Forall positive_mass s'.
Proof.
  revert s. induction n as [| n IH]; intros s HF.
  - exists s. split; [reflexivity | exact HF].
  - simpl. unfold bind.
    destruct (updateall_positive s HF) as (s1 & E & HF1).
    rewrite E. apply IH. exact HF1.
Qed.

(** X28. Whatever the command line is and however many frames pass, the
    physics of the program (over the reals) raises nothing: the module builds
    its bodies, every tick runs to its end, every body keeps a positive mass,
    and the bodies never become more. *)
Theorem program_ticks_safe (argv : list string) (n : nat) :
  exists gpoints gpoints',
    module_gpoints argv = Normal gpoints /\
    ticks n gpoints = (Normal tt, gpoints') /\
    Forall positive_mass gpoints' /\
    (length gpoints' <= length gpoints)%nat.
Proof.
  destruct (module_gpoints_valid argv) as (g0 & E0 & HF0).
  destruct (ticks_positive n g0 (valid_positive g0 HF0)) as (g1 & E1 & HF1).
  exists g0, g1. split; [exact E0 |]. split; [exact E1 |].
  split; [exact HF1 |].
  destruct (ticks_lengths n g0) as [H _]. rewrite E1 in H. exact H.
Qed.
